(** * A static file server: [web/serve.py]

    The program is a 25-line script over Python's standard library: it
    fixes a port and a base directory, subclasses
    [http.server.SimpleHTTPRequestHandler] to pin its [directory], sets
    [socketserver.TCPServer.allow_reuse_address] and runs
    [TCPServer.serve_forever] inside a [with] block, catching
    [KeyboardInterrupt].

    The development follows the program's layers.
    - [PyStr], [PosixPath]: the [str] methods and [posixpath] functions the
      handler calls, transcribed from CPython 3.11 ([Lib/posixpath.py]).
    - [PyText]: the library functions that decode, encode or format text,
      as an interface.
    - [OS]: the process state (filesystem with symbolic links, working
      directory, port table, the class attribute, the trace of observable
      actions) and a small state-and-exception monad with a third outcome
      for a call that is still blocked.
    - [HttpServer]: [SimpleHTTPRequestHandler] ([Lib/http/server.py]):
      [send_response], [send_error], [translate_path], [send_head],
      [list_directory], [do_GET], [do_HEAD] and the dispatch of
      [handle_one_request].
    - [SocketServer]: [TCPServer] and [BaseServer.serve_forever]
      ([Lib/socketserver.py]).
    - [Serve]: the script itself, statement by statement.

    Python [str] values are represented by [string].  The text of a
    request line is decoded as ISO-8859-1: one character per code point
    below 256.  Text that [unquote] has decoded, and file names, may hold
    any code point; they are kept in an encoding that leaves the ASCII
    characters alone and orders text as its code points do (UTF-8), which
    is all the path functions rely on: they look for [/], [.] and NUL only.
    What depends on other code points (lower-casing, whether a path can be
    encoded for the filesystem) is part of [PyText]. *)

From Stdlib Require Import Bool Arith ZArith Lia List Ascii String DecimalString.
Import ListNotations.
Local Open Scope list_scope.
Local Open Scope string_scope.

(** ** Python [str] methods *)

Module PyStr.

(** [sep in s] for a one-character [sep]. *)
Fixpoint contains (c : ascii) (s : string) : bool :=
  match s with
  | EmptyString => false
  | String a s' => Ascii.eqb a c || contains c s'
  end.

(** [s.split(sep)] for a one-character [sep]: never the empty list. *)
Fixpoint split (c : ascii) (s : string) : list string :=
  match s with
  | EmptyString => [EmptyString]
  | String a s' =>
      if Ascii.eqb a c then EmptyString :: split c s'
      else match split c s' with
           | w :: ws => String a w :: ws
           | [] => [String a EmptyString]
           end
  end.

(** [s.split(sep, 1)[0]]: the text before the first [sep]. *)
Fixpoint split1_head (c : ascii) (s : string) : string :=
  match s with
  | EmptyString => EmptyString
  | String a s' => if Ascii.eqb a c then EmptyString else String a (split1_head c s')
  end.

(** [sep.join(words)]. *)
Fixpoint join (sep : string) (words : list string) : string :=
  match words with
  | [] => EmptyString
  | [w] => w
  | w :: ws => w ++ sep ++ join sep ws
  end.

(** [s.startswith(c)] and [s.endswith(c)] for a one-character [c]. *)
Definition startswith (c : ascii) (s : string) : bool :=
  match s with
  | String a _ => Ascii.eqb a c
  | EmptyString => false
  end.

Fixpoint endswith (c : ascii) (s : string) : bool :=
  match s with
  | EmptyString => false
  | String a EmptyString => Ascii.eqb a c
  | String _ s' => endswith c s'
  end.

(** [str.isspace] on one code point below 256: TAB..CR, FS..US, SPACE,
    NEL and NO-BREAK SPACE. *)
Definition isspace (a : ascii) : bool :=
  let n := nat_of_ascii a in
  ((9 <=? n)%nat && (n <=? 13)%nat) || ((28 <=? n)%nat && (n <=? 32)%nat)
  || (n =? 133)%nat || (n =? 160)%nat.

(** [s.rstrip()], on the text of a request line. *)
Fixpoint rstrip (s : string) : string :=
  match s with
  | EmptyString => EmptyString
  | String a s' =>
      match rstrip s' with
      | EmptyString => if isspace a then EmptyString else String a EmptyString
      | r => String a r
      end
  end.

(** [s.rstrip(c)] for a one-character [c]. *)
Fixpoint rstrip_char (c : ascii) (s : string) : string :=
  match s with
  | EmptyString => EmptyString
  | String a s' =>
      match rstrip_char c s' with
      | EmptyString => if Ascii.eqb a c then EmptyString else String a EmptyString
      | r => String a r
      end
  end.

(** [s[:s.rfind(c) + 1]]: the text up to and including the last [c]. *)
Fixpoint upto_last (c : ascii) (s : string) : string :=
  match s with
  | EmptyString => EmptyString
  | String a s' =>
      if Ascii.eqb a c || contains c s' then String a (upto_last c s')
      else EmptyString
  end.

(** [s == c * len(s)]. *)
Fixpoint all_char (c : ascii) (s : string) : bool :=
  match s with
  | EmptyString => true
  | String a s' => Ascii.eqb a c && all_char c s'
  end.

(** Truth value of a [str]. *)
Definition nonempty (s : string) : bool :=
  match s with EmptyString => false | _ => true end.

(** [list.sort(key=key)]: a stable sort on the keys, which are compared
    as [str] values are. *)
Fixpoint insert_by_key (key : string -> string) (x : string) (l : list string)
  : list string :=
  match l with
  | [] => [x]
  | y :: l' =>
      if String.leb (key x) (key y) then x :: y :: l'
      else y :: insert_by_key key x l'
  end.

Definition sort_by_key (key : string -> string) (l : list string) : list string :=
  List.fold_right (insert_by_key key) [] l.

End PyStr.

(** ** [posixpath] *)

Module PosixPath.
Import PyStr.

Definition sep : ascii := "/"%char.
Definition curdir : string := ".".
Definition pardir : string := "..".

(** [posixpath.isabs]. *)
Definition isabs (s : string) : bool := startswith sep s.

(** [posixpath.join(a, b)]: an absolute [b] discards [a]; a separator is
    inserted unless [a] is empty or already ends with one. *)
Definition join (a b : string) : string :=
  if startswith sep b then b
  else if negb (nonempty a) || endswith sep a then a ++ b
  else a ++ "/" ++ b.

(** [posixpath.dirname]. *)
Definition dirname (p : string) : string :=
  let head := upto_last sep p in
  if nonempty head && negb (all_char sep head) then rstrip_char sep head
  else head.

(** The loop of [posixpath.normpath] over the components. *)
Fixpoint normpath_comps (initial_slashes : nat) (new_comps comps : list string)
  : list string :=
  match comps with
  | [] => new_comps
  | comp :: rest =>
      if String.eqb comp "" || String.eqb comp curdir then
        normpath_comps initial_slashes new_comps rest
      else if negb (String.eqb comp pardir)
              || (Nat.eqb initial_slashes 0 && Nat.eqb (List.length new_comps) 0)
              || (negb (Nat.eqb (List.length new_comps) 0)
                  && String.eqb (List.last new_comps "") pardir) then
        normpath_comps initial_slashes (new_comps ++ [comp]) rest
      else
        (* [elif new_comps: new_comps.pop()]; [removelast [] = []]. *)
        normpath_comps initial_slashes (List.removelast new_comps) rest
  end.

(** [sep * n]. *)
Fixpoint seps (n : nat) : string :=
  match n with
  | O => EmptyString
  | S n' => String sep (seps n')
  end.

(** [posixpath.normpath] (the Python definition; [posix._path_normpath]
    computes the same on text without NUL). *)
Definition normpath (path : string) : string :=
  if String.eqb path "" then curdir
  else
    let initial_slashes :=
      if startswith sep path then
        if String.prefix "//" path && negb (String.prefix "///" path) then 2
        else 1
      else 0 in
    let comps := normpath_comps initial_slashes [] (split sep path) in
    let path' := seps initial_slashes ++ PyStr.join "/" comps in
    if nonempty path' then path' else curdir.

(** [posixpath.abspath], with the working directory made explicit. *)
Definition abspath (cwd path : string) : string :=
  normpath (if isabs path then path else join cwd path).

End PosixPath.

(** ** Text functions of the library *)

Module PyText.

(** The library functions that decode, encode or format text.  The
    control flow of the handler depends on them only through the results
    the class gives: a text, or no text where the function raises. *)
Class TextLib : Type := {
  (** [urllib.parse.unquote(path, errors='surrogatepass')], with the
      fallback to [unquote(path)] on [UnicodeDecodeError]. *)
  unquote : string -> string;
  (** [str.lower()]. *)
  lower : string -> string;
  (** Whether [os.fsencode] accepts the text: it holds no lone surrogate
      that the [surrogateescape] handler refuses.  (NUL is looked for
      separately.) *)
  fsencodable : string -> bool;
  (** [SimpleHTTPRequestHandler.guess_type]. *)
  guess_type : string -> string;
  (** [BaseHTTPRequestHandler.date_time_string(timestamp)]. *)
  date_time_string : Z -> string;
  (** [BaseHTTPRequestHandler.version_string()]: [server_version] and
      [sys_version]. *)
  version_string : string;
  (** [urllib.parse.urlsplit(url).path]; [None] where [urlsplit] raises
      [ValueError]. *)
  urlsplit_path : string -> option string;
  (** [urlunsplit] of the request URL with [/] appended to its path. *)
  redirect_url : string -> string;
  (** [error_message_format % {code, message, explain}], encoded;
      [explain] defaults to the long message of the code. *)
  error_page : Z -> string -> option string -> string;
  (** ["Unsupported method (%r)" % command]. *)
  unsupported_method : string -> string;
  (** The HTML of a directory listing, encoded: the request path and the
      translated path for the title (the second is used when the first
      does not decode) and the (link name, display name) of every entry;
      [None] where [encode(enc, 'surrogateescape')] raises
      [UnicodeEncodeError]. *)
  listing_page : string -> string -> list (string * string) -> option string;
  (** [sys.getfilesystemencoding()]. *)
  filesystem_encoding : string
}.

End PyText.

(** ** The process and its environment *)

Module OS.
Import PyStr PyText.

(** *** Exceptions

    [KeyboardInterrupt] derives from [BaseException] only; every
    [OSError] and every [ValueError] ([UnicodeEncodeError] is one) is an
    [Exception]. *)

Inductive oserror : Type :=
| ENOENT | EACCES | EISDIR | ENOTDIR | ELOOP | EADDRINUSE | ECONNRESET.

Inductive exn : Type :=
| KeyboardInterrupt
| OSError (e : oserror)
| ValueError.

Definition is_Exception (e : exn) : bool :=
  match e with
  | KeyboardInterrupt => false
  | OSError _ => true
  | ValueError => true
  end.

Definition is_OSError (e : exn) : bool :=
  match e with
  | OSError _ => true
  | _ => false
  end.

Definition is_ValueError (e : exn) : bool :=
  match e with
  | ValueError => true
  | _ => false
  end.

Definition is_KeyboardInterrupt (e : exn) : bool :=
  match e with
  | KeyboardInterrupt => true
  | _ => false
  end.

(** *** Filesystem

    Regular files, directories and symbolic links, seen through what
    [stat], [lstat], [open] and [listdir] answer.  A node is found under
    its key: the list of names from the root, none of them a link that
    has been followed. *)

Inductive node : Type :=
| RegFile (content : string) (mtime : Z) (readable : bool)
| Directory (entries : list string) (listable : bool)
| Symlink (target : string).

Definition filesystem : Type := list string -> option node.

(** The links one path resolution may follow ([MAXSYMLINKS]). *)
Definition MAXSYMLINKS : nat := 40.

(** The kernel's path walk from the directory [dir] over the components
    [comps], with [links] symbolic links still to be followed: empty
    components and [.] are skipped, [..] steps to the parent, a name is
    looked up in the directory at hand.  A symbolic link is replaced by
    its target, unless it is the last component and [follow] is off.  The
    answer is the key reached and the node there. *)
Fixpoint namei (fs : filesystem) (links : nat) (follow : bool)
  (dir comps : list string) {struct links} : (list string * node) + oserror :=
  (fix walk (dir comps : list string) {struct comps}
     : (list string * node) + oserror :=
     match comps with
     | [] =>
         match fs dir with
         | Some n => inl (dir, n)
         | None => inr ENOENT
         end
     | c :: rest =>
         if String.eqb c "" || String.eqb c "." then walk dir rest
         else if String.eqb c ".." then walk (List.removelast dir) rest
         else
           match fs (dir ++ [c])%list with
           | None => inr ENOENT
           | Some (Directory _ _) => walk (dir ++ [c])%list rest
           | Some (RegFile content mtime readable) =>
               match rest with
               | [] => inl ((dir ++ [c])%list, RegFile content mtime readable)
               | _ :: _ => inr ENOTDIR
               end
           | Some (Symlink target) =>
               match rest, follow with
               | [], false => inl ((dir ++ [c])%list, Symlink target)
               | _, _ =>
                   match links with
                   | O => inr ELOOP
                   | S links' =>
                       if String.eqb target "" then inr ENOENT
                       else
                         namei fs links' follow
                           (if PosixPath.isabs target then [] else dir)
                           (split PosixPath.sep target ++ rest)%list
                   end
               end
           end
     end) dir comps.

(** The lexical key of a path: what it names when no component is a
    symbolic link.  The stack holds the names innermost first. *)
Definition walk_step (stack : list string) (comp : string) : list string :=
  if String.eqb comp "" || String.eqb comp "." then stack
  else if String.eqb comp ".." then List.tl stack
  else comp :: stack.

Definition walk (stack : list string) (comps : list string) : list string :=
  List.fold_left walk_step comps stack.

Definition resolve (cwd : list string) (path : string) : list string :=
  let start := if PosixPath.isabs path then [] else List.rev cwd in
  List.rev (walk start (split PosixPath.sep path)).

(** A name [os.listdir] can report: not empty, not [.] or [..], and
    without a separator. *)
Definition simple_name (w : string) : bool :=
  nonempty w && negb (String.eqb w ".") && negb (String.eqb w "..")
  && negb (contains PosixPath.sep w).

Definition NUL : ascii := ascii_of_nat 0.

Section WithTextLib.
Context {L : TextLib}.

(** A path Python hands to the kernel: without NUL and encodable.  For
    any other, the call raises [ValueError] before the kernel is asked. *)
Definition passable (path : string) : bool :=
  negb (contains NUL path) && fsencodable path.

(** Path resolution as [os.stat] ([follow] on) and [os.lstat] (off) do
    it; [cwd] is the key of the working directory. *)
Definition lookup (fs : filesystem) (cwd : list string) (follow : bool)
  (path : string) : (list string * node) + exn :=
  if negb (passable path) then inr ValueError
  else if String.eqb path "" then inr (OSError ENOENT)
  else
    match namei fs MAXSYMLINKS follow
            (if PosixPath.isabs path then [] else cwd)
            (split PosixPath.sep path) with
    | inl found => inl found
    | inr e => inr (OSError e)
    end.

(** [os.stat(path)] and [os.lstat(path)]: the node, or the exception. *)
Definition stat (fs : filesystem) (cwd : list string) (path : string)
  : node + exn :=
  match lookup fs cwd true path with
  | inl (_, n) => inl n
  | inr e => inr e
  end.

Definition lstat (fs : filesystem) (cwd : list string) (path : string)
  : node + exn :=
  match lookup fs cwd false path with
  | inl (_, n) => inl n
  | inr e => inr e
  end.

(** The key of the node a path leads to, links followed; the working
    directory's where it leads nowhere. *)
Definition real_key (fs : filesystem) (cwd : list string) (path : string)
  : list string :=
  match lookup fs cwd true path with
  | inl (key, _) => key
  | inr _ => cwd
  end.

End WithTextLib.

(** *** Process state *)

(** What the process does that can be observed from outside, in order.
    [EvSendHead] is the status line (its code) with the headers, written
    when [end_headers] flushes them. *)
Inductive event : Type :=
| EvChdir (dir : string)
| EvSocket
| EvSetReuseAddr
| EvBind (host : string) (port : Z) (ok : bool)
| EvListen (backlog : Z)
| EvCloseListening
| EvPrint (text : string)
| EvAccept (conn : nat)
| EvLogRequest (conn : nat) (code : Z)
| EvLogError (conn : nat) (code : Z)
| EvSendHead (conn : nat) (code : Z) (headers : list (string * string))
| EvSendBody (conn : nat) (body : string)
| EvTraceback
| EvCloseConn (conn : nat).

Record world : Type := mkWorld {
  w_fs : filesystem;
  (** The working directory, by its key. *)
  w_cwd : list string;
  (** [socketserver.TCPServer.allow_reuse_address], a class attribute. *)
  w_allow_reuse_address : bool;
  (** Ports some socket of the machine is bound to. *)
  w_bound : list Z;
  (** Ports with connections lingering in TIME_WAIT. *)
  w_time_wait : list Z;
  w_trace : list event
}.

Definition set_fs (fs : filesystem) (w : world) : world :=
  mkWorld fs (w_cwd w) (w_allow_reuse_address w) (w_bound w) (w_time_wait w)
          (w_trace w).

Definition set_cwd (d : list string) (w : world) : world :=
  mkWorld (w_fs w) d (w_allow_reuse_address w) (w_bound w) (w_time_wait w)
          (w_trace w).

Definition set_allow_reuse_address (b : bool) (w : world) : world :=
  mkWorld (w_fs w) (w_cwd w) b (w_bound w) (w_time_wait w) (w_trace w).

Definition set_bound (l : list Z) (w : world) : world :=
  mkWorld (w_fs w) (w_cwd w) (w_allow_reuse_address w) l (w_time_wait w)
          (w_trace w).

Definition set_time_wait (l : list Z) (w : world) : world :=
  mkWorld (w_fs w) (w_cwd w) (w_allow_reuse_address w) (w_bound w) l
          (w_trace w).

Definition log_event (e : event) (w : world) : world :=
  mkWorld (w_fs w) (w_cwd w) (w_allow_reuse_address w) (w_bound w)
          (w_time_wait w) (w_trace w ++ [e])%list.

(** *** The monad *)

(** A call returns, raises, or has not come back: the thread is blocked
    waiting for the environment. *)
Inductive result (A : Type) : Type :=
| Ret (a : A)
| Raise (e : exn)
| Block.
Arguments Ret {A} a.
Arguments Raise {A} e.
Arguments Block {A}.

Definition M (A : Type) : Type := world -> world * result A.

Definition ret {A} (a : A) : M A := fun w => (w, Ret a).
Definition raise {A} (e : exn) : M A := fun w => (w, Raise e).
Definition block {A} : M A := fun w => (w, Block).

Definition bind {A B} (m : M A) (k : A -> M B) : M B :=
  fun w =>
    match m w with
    | (w', Ret a) => k a w'
    | (w', Raise e) => (w', Raise e)
    | (w', Block) => (w', Block)
    end.

(** [try: m  except BaseException as e: h e]. *)
Definition catch {A} (m : M A) (h : exn -> M A) : M A :=
  fun w =>
    match m w with
    | (w', Raise e) => h e w'
    | r => r
    end.

(** [try: m  except <catches>: h]. *)
Definition try_except {A} (m : M A) (catches : exn -> bool) (h : M A) : M A :=
  catch m (fun e => if catches e then h else raise e).

(** [try: m  finally: c], also the exit of a [with] block. *)
Definition try_finally {A} (m : M A) (c : M unit) : M A :=
  fun w =>
    match m w with
    | (w', Ret a) => bind c (fun _ => ret a) w'
    | (w', Raise e) => bind c (fun _ => raise e) w'
    | (w', Block) => (w', Block)
    end.

Definition emit (e : event) : M unit := fun w => (log_event e w, Ret tt).
Definition get {A} (f : world -> A) : M A := fun w => (w, Ret (f w)).
Definition modify (f : world -> world) : M unit := fun w => (f w, Ret tt).

Declare Scope py_scope.
Delimit Scope py_scope with py.
Notation "x <- m ;; k" := (bind m (fun x => k))
  (at level 100, m at next level, right associativity) : py_scope.
Notation "m ;; k" := (bind m (fun _ => k))
  (at level 100, right associativity) : py_scope.
Local Open Scope py_scope.

(** *** Built-in and [os] functions *)

Section WithTextLib.
Context {L : TextLib}.

(** [os.getcwd()]. *)
Definition os_getcwd : M string :=
  get (fun w => "/" ++ PyStr.join "/" (w_cwd w)).

(** [os.chdir(path)]. *)
Definition os_chdir (path : string) : M unit :=
  fun w =>
    match lookup (w_fs w) (w_cwd w) true path with
    | inl (key, Directory _ _) =>
        (log_event (EvChdir path) (set_cwd key w), Ret tt)
    | inl (_, _) => (w, Raise (OSError ENOTDIR))
    | inr e => (w, Raise e)
    end.

(** [os.stat] and [os.lstat] as calls. *)
Definition os_stat (path : string) : M node :=
  fun w =>
    match stat (w_fs w) (w_cwd w) path with
    | inl n => (w, Ret n)
    | inr e => (w, Raise e)
    end.

Definition os_lstat (path : string) : M node :=
  fun w =>
    match lstat (w_fs w) (w_cwd w) path with
    | inl n => (w, Ret n)
    | inr e => (w, Raise e)
    end.

Definition S_ISDIR (n : node) : bool :=
  match n with Directory _ _ => true | _ => false end.

Definition S_ISREG (n : node) : bool :=
  match n with RegFile _ _ _ => true | _ => false end.

Definition S_ISLNK (n : node) : bool :=
  match n with Symlink _ => true | _ => false end.

(** [os.path.isdir], [os.path.isfile] and [os.path.islink]
    ([genericpath], [posixpath]): [except (OSError, ValueError): return
    False]. *)
Definition os_path_isdir (path : string) : M bool :=
  try_except (st <- os_stat path ;; ret (S_ISDIR st))
    (fun e => is_OSError e || is_ValueError e)
    (ret false).

Definition os_path_isfile (path : string) : M bool :=
  try_except (st <- os_stat path ;; ret (S_ISREG st))
    (fun e => is_OSError e || is_ValueError e)
    (ret false).

Definition os_path_islink (path : string) : M bool :=
  try_except (st <- os_lstat path ;; ret (S_ISLNK st))
    (fun e => is_OSError e || is_ValueError e)
    (ret false).

(** A file object open for reading, with what [os.fstat] tells of it. *)
Record file : Type := mkFile {
  f_content : string;
  f_mtime : Z
}.

(** [open(path, 'rb')].  ([stat] follows links: it never answers with
    one.) *)
Definition open_rb (path : string) : M file :=
  fun w =>
    match stat (w_fs w) (w_cwd w) path with
    | inl (RegFile c m true) => (w, Ret (mkFile c m))
    | inl (RegFile _ _ false) => (w, Raise (OSError EACCES))
    | inl (Directory _ _) => (w, Raise (OSError EISDIR))
    | inl (Symlink _) => (w, Raise (OSError ELOOP))
    | inr e => (w, Raise e)
    end.

(** [os.listdir(path)]. *)
Definition os_listdir (path : string) : M (list string) :=
  fun w =>
    match stat (w_fs w) (w_cwd w) path with
    | inl (Directory es true) => (w, Ret (List.filter simple_name es))
    | inl (Directory _ false) => (w, Raise (OSError EACCES))
    | inl (RegFile _ _ _) => (w, Raise (OSError ENOTDIR))
    | inl (Symlink _) => (w, Raise (OSError ELOOP))
    | inr e => (w, Raise e)
    end.

(** [print(text)]. *)
Definition print (text : string) : M unit := emit (EvPrint text).

End WithTextLib.

End OS.


(** ** [http.server]: [SimpleHTTPRequestHandler] *)

Module HttpServer.
Import PyStr PyText OS.
Local Open Scope py_scope.

(** What [parse_request] leaves in [self] when it returns [True], and the
    reading of the clock while the request is handled.  A request line of
    two words, [GET path], is accepted too: its [request_version] is
    ["HTTP/0.9"]. *)
Record request : Type := mkRequest {
  command : string;
  (** [self.path]. *)
  path : string;
  (** [self.request_version]: the third word of the request line, or the
      default ["HTTP/0.9"]. *)
  request_version : string;
  (** [If-Modified-Since], when the header is present, parses, and carries
      no time zone or UTC: seconds since the epoch. *)
  if_modified_since : option Z;
  (** ["If-None-Match" in self.headers]. *)
  if_none_match : bool;
  (** [time.time()], which [send_response] reads for the [Date] header. *)
  clock : Z
}.

(** What arrives on an accepted connection. *)
Inductive client_input : Type :=
| Request (r : request)
(** The request line is too long or [parse_request] rejects it:
    [send_error(code, message, explain)] is called, with [command] and
    [request_version] of [self] as [r] has them at that point. *)
| BadRequest (r : request) (code : Z) (message : string)
    (explain : option string)
(** The peer closed before sending a request line. *)
| NoRequest
(** Reading the request raises: the peer reset the connection
    ([OSError]), or SIGINT arrived ([KeyboardInterrupt]). *)
| Fault (e : exn).

Definition HTTP_OK : Z := 200.
Definition HTTP_MOVED_PERMANENTLY : Z := 301.
Definition HTTP_NOT_MODIFIED : Z := 304.
Definition HTTP_NOT_FOUND : Z := 404.
Definition HTTP_NOT_IMPLEMENTED : Z := 501.

(** [str(n)] for a length. *)
Definition str (n : nat) : string := NilEmpty.string_of_uint (Nat.to_uint n).

Section Handler.
Context {L : TextLib}.

(** [self.request_version != 'HTTP/0.9']: the guard of
    [send_response_only], [send_header] and [end_headers]. *)
Definition has_headers (r : request) : bool :=
  negb (String.eqb r.(request_version) "HTTP/0.9").

(** [send_response(code)], the [send_header] calls after it and
    [end_headers()]: the request is logged; unless the request is
    HTTP/0.9, the status line, the [Server] and [Date] headers and the
    headers given are buffered and then written to the connection. *)
Definition send_response (conn : nat) (r : request) (code : Z)
  (headers : list (string * string)) : M unit :=
  emit (EvLogRequest conn code) ;;
  if has_headers r then
    emit (EvSendHead conn code
            (("Server", version_string)
             :: ("Date", date_time_string r.(clock))
             :: headers))
  else ret tt.

(** [send_error(code, message, explain)]. *)
Definition send_error (conn : nat) (r : request) (code : Z)
  (message : string) (explain : option string) : M unit :=
  emit (EvLogError conn code) ;;
  let body :=
    if (200 <=? code)%Z
       && negb ((code =? 204)%Z || (code =? 205)%Z || (code =? 304)%Z)
    then Some (error_page code message explain) else None in
  send_response conn r code
    (("Connection", "close") ::
     match body with
     | Some b => [("Content-Type", "text/html;charset=utf-8");
                  ("Content-Length", str (String.length b))]
     | None => []
     end) ;;
  match body with
  | Some b =>
      if negb (String.eqb r.(command) "HEAD") && nonempty b
      then emit (EvSendBody conn b) else ret tt
  | None => ret tt
  end.

(** [translate_path(path)]. *)
Definition translate_path (directory path : string) : string :=
  let path := split1_head "?" path in
  let path := split1_head "#" path in
  let trailing_slash := endswith "/" (rstrip path) in
  let path := unquote path in
  let path := PosixPath.normpath path in
  let words := split "/" path in
  let words := List.filter nonempty words in
  let path :=
    List.fold_left
      (fun path word =>
         if nonempty (PosixPath.dirname word)
            || String.eqb word PosixPath.curdir
            || String.eqb word PosixPath.pardir
         then path
         else PosixPath.join path word)
      words directory in
  if trailing_slash then path ++ "/" else path.

(** [list.sort(key=lambda a: a.lower())]. *)
Definition sort_by_lower (names : list string) : list string :=
  sort_by_key lower names.

(** The loop of [list_directory] over the names: a directory is shown and
    linked with [/] appended, a symbolic link is shown with [@]. *)
Fixpoint list_entries (path : string) (names : list string)
  : M (list (string * string)) :=
  match names with
  | [] => ret []
  | name :: rest =>
      let fullname := PosixPath.join path name in
      isd <- os_path_isdir fullname ;;
      isl <- os_path_islink fullname ;;
      let linkname := if isd then name ++ "/" else name in
      let displayname :=
        if isl then name ++ "@" else if isd then name ++ "/" else name in
      items <- list_entries path rest ;;
      ret ((linkname, displayname) :: items)
  end.

(** [list_directory(path)]: the listing as an in-memory file, or [None]
    after an error response. *)
Definition list_directory (conn : nat) (r : request) (path : string)
  : M (option string) :=
  o <- try_except
         (list <- os_listdir path ;; ret (Some list))
         is_OSError
         (send_error conn r HTTP_NOT_FOUND
            "No permission to list directory" None ;;
          ret None) ;;
  match o with
  | None => ret None
  | Some list =>
      items <- list_entries path (sort_by_lower list) ;;
      match listing_page r.(HttpServer.path) path items with
      | None => raise ValueError
      | Some encoded =>
          send_response conn r HTTP_OK
            [("Content-type", "text/html; charset=" ++ filesystem_encoding);
             ("Content-Length", str (String.length encoded))] ;;
          ret (Some encoded)
      end
  end.

(** The second half of [send_head], from [ctype = self.guess_type(path)]
    on: open the file and answer 404, 304 or 200.  Only [OSError] is
    caught around [open]. *)
Definition send_file_head (conn : nat) (r : request) (path : string)
  : M (option string) :=
  let ctype := guess_type path in
  if endswith "/" path then
    send_error conn r HTTP_NOT_FOUND "File not found" None ;;
    ret None
  else
    o <- try_except
           (f <- open_rb path ;; ret (Some f))
           is_OSError
           (send_error conn r HTTP_NOT_FOUND "File not found" None ;;
            ret None) ;;
    match o with
    | None => ret None
    | Some f =>
        let not_modified :=
          match r.(if_modified_since), r.(if_none_match) with
          | Some ims, false => (f.(f_mtime) <=? ims)%Z
          | _, _ => false
          end in
        if not_modified then
          send_response conn r HTTP_NOT_MODIFIED [] ;;
          ret None
        else
          send_response conn r HTTP_OK
            [("Content-type", ctype);
             ("Content-Length", str (String.length f.(f_content)));
             ("Last-Modified", date_time_string f.(f_mtime))] ;;
          ret (Some f.(f_content))
    end.

(** [for index in "index.html", "index.htm": ... break]: the first index
    page that is a file. *)
Fixpoint find_index (path : string) (names : list string) : M (option string) :=
  match names with
  | [] => ret None
  | index :: rest =>
      let index := PosixPath.join path index in
      isf <- os_path_isfile index ;;
      if isf then ret (Some index) else find_index path rest
  end.

(** [send_head()].  [urlsplit] is called on the request path for a
    directory only; where it raises, nothing catches. *)
Definition send_head (directory : string) (conn : nat) (r : request)
  : M (option string) :=
  let path := translate_path directory r.(HttpServer.path) in
  isd <- os_path_isdir path ;;
  if isd then
    match urlsplit_path r.(HttpServer.path) with
    | None => raise ValueError
    | Some parts_path =>
        if negb (endswith "/" parts_path) then
          send_response conn r HTTP_MOVED_PERMANENTLY
            [("Location", redirect_url r.(HttpServer.path));
             ("Content-Length", "0")] ;;
          ret None
        else
          i <- find_index path ["index.html"; "index.htm"] ;;
          match i with
          | Some index => send_file_head conn r index
          | None => list_directory conn r path
          end
    end
  else send_file_head conn r path.

(** [do_GET()]: the head, then [copyfile] to the connection. *)
Definition do_GET (directory : string) (conn : nat) (r : request) : M unit :=
  f <- send_head directory conn r ;;
  match f with
  | Some body => emit (EvSendBody conn body)
  | None => ret tt
  end.

(** [do_HEAD()]. *)
Definition do_HEAD (directory : string) (conn : nat) (r : request) : M unit :=
  f <- send_head directory conn r ;;
  ret tt.

(** [handle_one_request()]: [mname = 'do_' + self.command]; the class
    defines [do_GET] and [do_HEAD] only. *)
Definition handle_one_request (directory : string) (conn : nat)
  (input : client_input) : M unit :=
  match input with
  | Fault e => raise e
  | NoRequest => ret tt
  | BadRequest r code message explain =>
      send_error conn r code message explain
  | Request r =>
      if String.eqb r.(command) "GET" then do_GET directory conn r
      else if String.eqb r.(command) "HEAD" then do_HEAD directory conn r
      else send_error conn r HTTP_NOT_IMPLEMENTED
             (unsupported_method r.(command)) None
  end.

(** [SimpleHTTPRequestHandler(request, client_address, server,
    directory=...)].  The constructor fixes [self.directory] and, through
    [BaseRequestHandler.__init__], handles the connection: with
    [protocol_version = "HTTP/1.0"] a connection carries one request. *)
Definition SimpleHTTPRequestHandler (directory : option string) (conn : nat)
  (input : client_input) : M unit :=
  d <- match directory with
       | None => os_getcwd
       | Some d => ret d
       end ;;
  handle_one_request d conn input.

End Handler.
End HttpServer.

(** ** [socketserver]: [TCPServer] *)

Module SocketServer.
Import PyText OS HttpServer.
Local Open Scope py_scope.

(** A request handler class: constructing it on an accepted connection
    handles the connection. *)
Definition handler_class : Type := nat -> client_input -> M unit.

(** A server object.  [sock_port] is the port its socket is bound to. *)
Record tcp_server : Type := mkServer {
  server_address : string * Z;
  RequestHandlerClass : handler_class;
  sock_port : option Z
}.

(** What [selector.select(poll_interval)] and [accept] meet in one turn of
    the loop. *)
Inductive server_event : Type :=
(** Nothing is ready within [poll_interval]. *)
| Timeout
(** A connection is ready; [input] is what its peer does. *)
| Incoming (conn : nat) (input : client_input)
(** The socket is ready but [accept] raises [OSError]. *)
| AcceptError
(** SIGINT arrives while the thread waits in [select]. *)
| Interrupt.

Definition request_queue_size : Z := 5.

(** [socket.bind(address)]: the port must not be bound by any socket, and
    not be in TIME_WAIT unless the socket has [SO_REUSEADDR]. *)
Definition socket_bind (address : string * Z) (reuseaddr : bool) : M unit :=
  fun w =>
    let port := snd address in
    if List.existsb (Z.eqb port) (w_bound w)
       || (List.existsb (Z.eqb port) (w_time_wait w) && negb reuseaddr)
    then (log_event (EvBind (fst address) port false) w,
          Raise (OSError EADDRINUSE))
    else (log_event (EvBind (fst address) port true)
            (set_bound (port :: w_bound w) w), Ret tt).

(** [socket.close()] on the listening socket. *)
Definition socket_close (port : option Z) : M unit :=
  emit EvCloseListening ;;
  match port with
  | Some p => modify (fun w => set_bound (List.remove Z.eq_dec p (w_bound w)) w)
  | None => ret tt
  end.

(** [server_bind()]: [allow_reuse_address] is read from the class, the
    instance has no attribute of its own; [allow_reuse_port] is [False]. *)
Definition server_bind (address : string * Z) : M unit :=
  reuse <- get w_allow_reuse_address ;;
  (if reuse then emit EvSetReuseAddr else ret tt) ;;
  socket_bind address reuse.

(** [server_activate()]. *)
Definition server_activate : M unit := emit (EvListen request_queue_size).

(** [server_close()]. *)
Definition server_close (srv : tcp_server) : M unit :=
  socket_close srv.(sock_port).

(** [TCPServer(server_address, RequestHandlerClass)]: a failure of
    [server_bind] closes the still unbound socket and is raised again. *)
Definition TCPServer (address : string * Z) (handler : handler_class)
  : M tcp_server :=
  emit EvSocket ;;
  catch
    (server_bind address ;;
     server_activate ;;
     ret (mkServer address handler (Some (snd address))))
    (fun e => socket_close None ;; raise e).

(** [shutdown_request(request)]: [shutdown(SHUT_WR)] and [close()] on the
    connection. *)
Definition shutdown_request (srv : tcp_server) (conn : nat) : M unit :=
  emit (EvCloseConn conn).

(** [handle_error()]: a traceback on stderr. *)
Definition handle_error : M unit := emit EvTraceback.

(** [BaseServer.process_request], which [TCPServer] inherits:
    [finish_request] constructs the handler, then [shutdown_request]. *)
Definition process_request (srv : tcp_server) (conn : nat)
  (input : client_input) : M unit :=
  srv.(RequestHandlerClass) conn input ;;
  shutdown_request srv conn.

(** [_handle_request_noblock()] once [accept] has returned [conn];
    [verify_request] returns [True]. *)
Definition handle_request_noblock (srv : tcp_server) (conn : nat)
  (input : client_input) : M unit :=
  emit (EvAccept conn) ;;
  catch (process_request srv conn input)
    (fun e =>
       if is_Exception e then
         handle_error ;; shutdown_request srv conn
       else
         shutdown_request srv conn ;; raise e).

(** [serve_forever()]: one turn of the loop per event.  Nothing calls
    [shutdown()], so the loop is left by an exception only; when the
    events run out the thread is blocked in [select]. *)
Fixpoint serve_forever (srv : tcp_server) (events : list server_event)
  : M unit :=
  match events with
  | [] => block
  | Timeout :: rest => serve_forever srv rest
  | AcceptError :: rest => serve_forever srv rest
  | Interrupt :: _ => raise KeyboardInterrupt
  | Incoming conn input :: rest =>
      handle_request_noblock srv conn input ;;
      serve_forever srv rest
  end.

(** The events that bring SIGINT: while waiting, or during a request. *)
Definition is_interrupt (ev : server_event) : bool :=
  match ev with
  | Interrupt => true
  | Incoming _ (Fault KeyboardInterrupt) => true
  | _ => false
  end.

Definition interrupted (events : list server_event) : bool :=
  List.existsb is_interrupt events.

End SocketServer.
(** ** The script: [web/serve.py] *)

Module Serve.
Import PyStr PyText OS HttpServer SocketServer.
Local Open Scope py_scope.

Definition PORT : Z := 8000.

(** [str(n)] for an [int]. *)
Definition format_int (n : Z) : string := NilEmpty.string_of_int (Z.to_int n).

Definition newline : string := String (ascii_of_nat 10) EmptyString.

Section Script.
Context {L : TextLib}.

(** [DIRECTORY = os.path.dirname(os.path.abspath(__file__))], where [cwd]
    is what [os.getcwd()] returns when the module is executed. *)
Definition DIRECTORY (cwd file : string) : string :=
  PosixPath.dirname (PosixPath.abspath cwd file).

(** [class Handler]: its constructor passes [directory=DIRECTORY] on to
    the constructor of [SimpleHTTPRequestHandler]. *)
Definition Handler (directory : string) : handler_class :=
  SimpleHTTPRequestHandler (Some directory).

(** The body of [if __name__ == "__main__":]. *)
Definition main (directory : string) (events : list server_event) : M unit :=
  os_chdir directory ;;
  httpd <- TCPServer ("", PORT) (Handler directory) ;;
  try_finally
    (print ("Serving chat app at http://localhost:" ++ format_int PORT) ;;
     print "Press Ctrl+C to stop" ;;
     try_except
       (serve_forever httpd events)
       is_KeyboardInterrupt
       (print (newline ++ "Server stopped.")))
    (server_close httpd).

(** The module, top to bottom.  [name] is [__name__], [file] is
    [__file__]. *)
Definition module_body (name file : string) (events : list server_event)
  : M unit :=
  cwd <- os_getcwd ;;
  let directory := DIRECTORY cwd file in
  modify (set_allow_reuse_address true) ;;
  if String.eqb name "__main__" then main directory events else ret tt.

(** [python3 serve.py]: the exit status when the script ends.  An
    uncaught exception prints a traceback; an uncaught
    [KeyboardInterrupt] ends the process by SIGINT, which a shell reports
    as 130. *)
Definition run_script (file : string) (events : list server_event)
  (w : world) : world * option Z :=
  match module_body "__main__" file events w with
  | (w', Ret _) => (w', Some 0%Z)
  | (w', Raise KeyboardInterrupt) => (log_event EvTraceback w', Some 130%Z)
  | (w', Raise (OSError _)) => (log_event EvTraceback w', Some 1%Z)
  | (w', Raise ValueError) => (log_event EvTraceback w', Some 1%Z)
  | (w', Block) => (w', None)
  end.

End Script.
End Serve.
(** ** Reading a trace *)

Module Trace.
Import OS.

(** The status codes sent on a connection, in order. *)
Fixpoint statuses (conn : nat) (t : list event) : list Z :=
  match t with
  | [] => []
  | EvSendHead c code _ :: t' =>
      if Nat.eqb c conn then code :: statuses conn t' else statuses conn t'
  | _ :: t' => statuses conn t'
  end.

(** The bytes of response body sent on a connection. *)
Fixpoint body (conn : nat) (t : list event) : string :=
  match t with
  | [] => EmptyString
  | EvSendBody c b :: t' =>
      if Nat.eqb c conn then b ++ body conn t' else body conn t'
  | _ :: t' => body conn t'
  end.

(** The lines printed on stdout. *)
Fixpoint prints (t : list event) : list string :=
  match t with
  | [] => []
  | EvPrint s :: t' => s :: prints t'
  | _ :: t' => prints t'
  end.

(** The attempts to bind a socket, with their outcome. *)
Fixpoint binds (t : list event) : list (string * Z * bool) :=
  match t with
  | [] => []
  | EvBind h p ok :: t' => (h, p, ok) :: binds t'
  | _ :: t' => binds t'
  end.

(** How often the listening socket is closed. *)
Fixpoint closes (t : list event) : nat :=
  match t with
  | [] => 0
  | EvCloseListening :: t' => S (closes t')
  | _ :: t' => closes t'
  end.

(** The connections accepted, in order. *)
Fixpoint accepts (t : list event) : list nat :=
  match t with
  | [] => []
  | EvAccept c :: t' => c :: accepts t'
  | _ :: t' => accepts t'
  end.

(** One connection at a time: the automaton holds the connection that is
    open, if any.  An accept needs none open; a log line, a response and
    the close of a connection need that very connection open. *)
Definition one_at_a_time_step (open : option nat) (e : event)
  : option (option nat) :=
  match e, open with
  | EvAccept c, None => Some (Some c)
  | EvAccept _, Some _ => None
  | EvLogRequest c _, Some o
  | EvLogError c _, Some o
  | EvSendHead c _ _, Some o
  | EvSendBody c _, Some o => if Nat.eqb c o then Some open else None
  | EvLogRequest _ _, None
  | EvLogError _ _, None
  | EvSendHead _ _ _, None
  | EvSendBody _ _, None => None
  | EvCloseConn c, Some o => if Nat.eqb c o then Some None else None
  | EvCloseConn _, None => None
  | _, _ => Some open
  end.

Fixpoint one_at_a_time (open : option nat) (t : list event)
  : option (option nat) :=
  match t with
  | [] => Some open
  | e :: t' =>
      match one_at_a_time_step open e with
      | Some open' => one_at_a_time open' t'
      | None => None
      end
  end.

(** The world after more events, everything else as it was. *)
Definition extend (t : list event) (w : world) : world :=
  mkWorld (w_fs w) (w_cwd w) (w_allow_reuse_address w) (w_bound w)
          (w_time_wait w) (w_trace w ++ t).

(** What a handler writes about its connection. *)
Definition in_conn (conn : nat) (e : event) : bool :=
  match e with
  | EvLogRequest c _ | EvLogError c _ | EvSendHead c _ _ | EvSendBody c _ =>
      Nat.eqb c conn
  | _ => false
  end.

(** What the accept loop and the handlers write. *)
Definition serving_event (e : event) : bool :=
  match e with
  | EvAccept _ | EvLogRequest _ _ | EvLogError _ _ | EvSendHead _ _ _
  | EvSendBody _ _ | EvTraceback | EvCloseConn _ => true
  | _ => false
  end.

End Trace.

(** ** A small installation to run the program on *)

Module Scenario.
Import PyStr PyText OS HttpServer SocketServer.

Definition hex_digit (a : ascii) : option nat :=
  let n := nat_of_ascii a in
  if (48 <=? n)%nat && (n <=? 57)%nat then Some (n - 48)
  else if (65 <=? n)%nat && (n <=? 70)%nat then Some (n - 55)
  else if (97 <=? n)%nat && (n <=? 102)%nat then Some (n - 87)
  else None.

(** Percent-decoding, byte by byte. *)
Fixpoint percent_decode (s : string) : string :=
  match s with
  | EmptyString => EmptyString
  | String c rest =>
      let keep := String c (percent_decode rest) in
      if Ascii.eqb c "%" then
        match rest with
        | String a (String b rest') =>
            match hex_digit a, hex_digit b with
            | Some x, Some y =>
                String (ascii_of_nat (16 * x + y)) (percent_decode rest')
            | _, _ => keep
            end
        | _ => keep
        end
      else keep
  end.

Definition has_suffix (suffix s : string) : bool :=
  let n := String.length s in
  let k := String.length suffix in
  (k <=? n)%nat && String.eqb (String.substring (n - k) k s) suffix.

(** Lower-casing of the ASCII capitals. *)
Fixpoint ascii_lower (s : string) : string :=
  match s with
  | EmptyString => EmptyString
  | String a s' =>
      let n := nat_of_ascii a in
      String (if (65 <=? n)%nat && (n <=? 90)%nat then ascii_of_nat (n + 32) else a)
             (ascii_lower s')
  end.

(** [/] goes between the path and the query or fragment. *)
Definition add_slash (u : string) : string :=
  let p := split1_head "#" (split1_head "?" u) in
  let n := String.length p in
  p ++ "/" ++ String.substring n (String.length u - n) u.

(** A text library good enough for plain ASCII names. *)
#[export] Instance plain : TextLib := {
  unquote := percent_decode;
  lower := ascii_lower;
  fsencodable := fun _ => true;
  guess_type := fun p =>
    if has_suffix ".html" p then "text/html"
    else if has_suffix ".txt" p then "text/plain"
    else "application/octet-stream";
  date_time_string := fun t => Serve.format_int t;
  version_string := "SimpleHTTP/0.6 Python/3.11.2";
  urlsplit_path := fun u => Some (split1_head "#" (split1_head "?" u));
  redirect_url := add_slash;
  error_page := fun code message explain =>
    Serve.format_int code ++ " " ++ message;
  unsupported_method := fun c => "Unsupported method ('" ++ c ++ "')";
  listing_page := fun p _ items =>
    Some (p ++ ": " ++ join " " (List.map snd items));
  filesystem_encoding := "utf-8"
}.

Fixpoint key_eqb (a b : list string) : bool :=
  match a, b with
  | [], [] => true
  | x :: a', y :: b' => String.eqb x y && key_eqb a' b'
  | _, _ => false
  end.

Definition fs_of (table : list (list string * node)) : filesystem :=
  fun key =>
    match List.find (fun kv => key_eqb (fst kv) key) table with
    | Some (_, n) => Some n
    | None => None
    end.

(** [/srv/chat/web] holds the script, a page, an unreadable file and a
    subdirectory; [/etc/passwd] lies outside. *)
Definition files : list (list string * node) :=
  [ ([], Directory ["srv"; "etc"] true);
    (["etc"], Directory ["passwd"] true);
    (["etc"; "passwd"], RegFile "root:x:0:0" 500 true);
    (["srv"], Directory ["chat"] true);
    (["srv"; "chat"], Directory ["web"] true);
    (["srv"; "chat"; "web"],
       Directory ["docs"; "index.html"; "private.txt"; "serve.py"] true);
    (["srv"; "chat"; "web"; "serve.py"], RegFile "#!/usr/bin/env python3" 900 true);
    (["srv"; "chat"; "web"; "index.html"], RegFile "<h1>hi</h1>" 1000 true);
    (["srv"; "chat"; "web"; "private.txt"], RegFile "keep out" 1000 false);
    (["srv"; "chat"; "web"; "docs"], Directory ["a.txt"; "sub"] true);
    (["srv"; "chat"; "web"; "docs"; "a.txt"], RegFile "aaa" 1000 true);
    (["srv"; "chat"; "web"; "docs"; "sub"], Directory [] false) ].


(** The same machine once [docs] holds two symbolic links: [users] to
    [/etc/passwd] and [up] to the parent directory. *)
Definition files_linked : list (list string * node) :=
  (["srv"; "chat"; "web"; "docs"], Directory ["a.txt"; "up"; "users"] true)
  :: (["srv"; "chat"; "web"; "docs"; "users"], Symlink "/etc/passwd")
  :: (["srv"; "chat"; "web"; "docs"; "up"], Symlink "..")
  :: files.

(** The process starts in [/srv/chat] with nothing bound. *)
Definition w0 : world :=
  mkWorld (fs_of files) ["srv"; "chat"] false [] [] [].

Definition w_linked : world :=
  mkWorld (fs_of files_linked) ["srv"; "chat"] false [] [] [].

(** The same, while another process listens on port 8000. *)
Definition w_busy : world :=
  mkWorld (fs_of files) ["srv"; "chat"] false [8000%Z] [] [].

Definition script : string := "web/serve.py".
Definition base : string := "/srv/chat/web".

(** Requests with the request line [GET p HTTP/1.0] and the like, and
    [GET p] alone; no headers; the clock reads 2000. *)
Definition GET (p : string) : request :=
  mkRequest "GET" p "HTTP/1.0" None false 2000.
Definition HEAD (p : string) : request :=
  mkRequest "HEAD" p "HTTP/1.0" None false 2000.
Definition GET09 (p : string) : request :=
  mkRequest "GET" p "HTTP/0.9" None false 2000.

Definition base_entries : list string :=
  ["docs"; "index.html"; "private.txt"; "serve.py"].

Definition two_events : list server_event :=
  [Timeout; Incoming 1 (Request (GET "/index.html"))].

Definition then_interrupt : list server_event :=
  [Incoming 1 (Request (GET "/nothing")); Interrupt;
   Incoming 2 (Request (GET "/index.html"))].

(** The script's directory has been removed under the running process. *)
Definition w_gone : world :=
  mkWorld (fs_of files) ["srv"; "chat"; "gone"] false [] [] [].

(** Connections of an earlier run linger on port 8000. *)
Definition w_lingering : world :=
  mkWorld (fs_of files) ["srv"; "chat"] false [] [8000%Z] [].


(** The headers [send_response] puts first. *)
Definition std_headers : list (string * string) :=
  [("Server", "SimpleHTTP/0.6 Python/3.11.2"); ("Date", "2000")].

End Scenario.

(** ** Notions the statements use *)

Module Notions.
Import PyStr PyText OS HttpServer SocketServer Serve Trace.
Local Open Scope list_scope.

(** Between two turns of the loop: more serving events on the trace, with
    every connection closed again; the ports in TIME_WAIT are the
    environment's. *)
Definition served (w w' : world) : Prop :=
  exists t tw,
    w' = set_time_wait tw (extend t w)
    /\ forallb serving_event t = true
    /\ one_at_a_time None t = Some None.

(** What a handler changes: the trace, by events of its connection. *)
Definition handled (conn : nat) (w w' : world) : Prop :=
  exists t, w' = extend t w /\ forallb (in_conn conn) t = true.

Definition startup_events (d : string) : list event :=
  [EvChdir d; EvSocket; EvSetReuseAddr; EvBind EmptyString PORT true;
   EvListen request_queue_size;
   EvPrint "Serving chat app at http://localhost:8000";
   EvPrint "Press Ctrl+C to stop"].

Definition shutdown_events : list event :=
  [EvPrint (newline ++ "Server stopped."); EvCloseListening].

(** The working directory as [os.getcwd()] reports it. *)
Definition getcwd (w : world) : string := ("/" ++ PyStr.join "/" (w_cwd w))%string.

(** A component the walk descends into. *)
Definition is_name (w : string) : bool :=
  negb (String.eqb w "") && negb (String.eqb w ".") && negb (String.eqb w "..").

(** The words [translate_path] keeps. *)
Definition kept_words (text : string) : list string :=
  filter (fun w => negb (String.eqb w PosixPath.curdir || String.eqb w PosixPath.pardir))
    (filter nonempty (split PosixPath.sep text)).




(** An event that is not a piece of response body. *)
Definition not_body (e : event) : bool :=
  match e with
  | EvSendBody _ _ => false
  | _ => true
  end.

Definition bodiless (w w' : world) : Prop :=
  exists t, w' = extend t w /\ forallb not_body t = true.

(** The connections the loop accepts while it handles [events]: up to
    the interrupt, if there is one. *)
Fixpoint connections (events : list server_event) : list nat :=
  match events with
  | [] => []
  | Interrupt :: _ => []
  | Incoming conn (Fault KeyboardInterrupt) :: _ => [conn]
  | Incoming conn _ :: rest => conn :: connections rest
  | _ :: rest => connections rest
  end.

(** What the accept loop writes between a handler's end and the close
    of the connection: a traceback when the handler raised an
    [Exception]. *)
Definition after_handler (res : result unit) : list event :=
  match res with
  | Raise e => if is_Exception e then [EvTraceback] else []
  | _ => []
  end.

(** The key [k] lies at or below the key [base]. *)
Definition at_or_below (base k : list string) : Prop :=
  exists ws, k = base ++ ws.

(** The key [k] lies on the way from the root to [base], or at or below
    it. *)
Definition on_chain (base k : list string) : Prop :=
  (exists ws, base = k ++ ws) \/ at_or_below base k.


Section WithTextLib.
Context {L : TextLib}.

(** The server object the script's [TCPServer] call returns. *)
Definition the_server (d : string) : tcp_server :=
  mkServer (EmptyString, PORT) (Handler d) (Some PORT).

(** [open] fails on the path with an [OSError]: nothing is there, or the
    file cannot be read. *)
Definition open_fails (fs : filesystem) (cwd : list string) (p : string) : bool :=
  match stat fs cwd p with
  | inr (OSError _) => true
  | inl (RegFile _ _ false) => true
  | _ => false
  end.

(** What [os.path.isdir], [os.path.isfile] and [os.path.islink] answer. *)
Definition is_dir (fs : filesystem) (cwd : list string) (q : string) : bool :=
  match stat fs cwd q with
  | inl (Directory _ _) => true
  | _ => false
  end.

Definition is_file (fs : filesystem) (cwd : list string) (q : string) : bool :=
  match stat fs cwd q with
  | inl (RegFile _ _ _) => true
  | _ => false
  end.

Definition is_link (fs : filesystem) (cwd : list string) (q : string) : bool :=
  match lstat fs cwd q with
  | inl (Symlink _) => true
  | _ => false
  end.

(** The link name and display name of one entry of a listing. *)
Definition listing_item (fs : filesystem) (cwd : list string) (p name : string)
  : string * string :=
  let full := PosixPath.join p name in
  (if is_dir fs cwd full then (name ++ "/")%string else name,
   if is_link fs cwd full then (name ++ "@")%string
   else if is_dir fs cwd full then (name ++ "/")%string else name).


(** The headers [send_response] sends before any other. *)
Definition server_and_date (r : request) : list (string * string) :=
  [("Server", version_string); ("Date", date_time_string (clock r))]%string.

(** What [send_response] and the headers after it put on the trace. *)
Definition response_head (conn : nat) (r : request) (code : Z)
  (headers : list (string * string)) : list event :=
  EvLogRequest conn code ::
  (if has_headers r
   then [EvSendHead conn code (server_and_date r ++ headers)] else []).

(** What [send_error] puts on the trace for a code that comes with an
    error page. *)
Definition error_response (conn : nat) (r : request) (code : Z)
  (message : string) (explain : option string) : list event :=
  let page := error_page code message explain in
  EvLogError conn code ::
  response_head conn r code
    [("Connection", "close"); ("Content-Type", "text/html;charset=utf-8");
     ("Content-Length", str (String.length page))]%string
  ++ (if negb (String.eqb (command r) "HEAD") && nonempty page
      then [EvSendBody conn page] else []).

(** A code [send_error] sends an error page with. *)
Definition with_page (code : Z) : bool :=
  (200 <=? code)%Z
  && negb ((code =? 204)%Z || (code =? 205)%Z || (code =? 304)%Z).

End WithTextLib.

End Notions.

(** * Properties *)

Import PyStr PyText OS HttpServer SocketServer Serve Trace Notions.
Local Open Scope list_scope.
Local Open Scope py_scope.

(** ** The calls that ask the filesystem *)

Lemma lookup_error {L : TextLib} fs cwd follow p e :
  lookup fs cwd follow p = inr e -> is_OSError e || is_ValueError e = true.
Proof.
  unfold lookup. destruct (negb (passable p)); [intros [= <-]; reflexivity |].
  destruct (String.eqb p ""); [intros [= <-]; reflexivity |].
  destruct (namei _ _ _ _ _); [discriminate | intros [= <-]; reflexivity].
Qed.

Lemma stat_error {L : TextLib} fs cwd p e :
  stat fs cwd p = inr e -> is_OSError e || is_ValueError e = true.
Proof.
  unfold stat. destruct (lookup fs cwd true p) as [[k n] | e'] eqn:E;
    [discriminate | intros [= <-]; exact (lookup_error _ _ _ _ _ E)].
Qed.

Lemma lstat_error {L : TextLib} fs cwd p e :
  lstat fs cwd p = inr e -> is_OSError e || is_ValueError e = true.
Proof.
  unfold lstat. destruct (lookup fs cwd false p) as [[k n] | e'] eqn:E;
    [discriminate | intros [= <-]; exact (lookup_error _ _ _ _ _ E)].
Qed.

(** [os.path.isdir] and the like never raise and change nothing. *)
Lemma os_path_isdir_eq {L : TextLib} p w :
  os_path_isdir p w = (w, Ret (is_dir (w_fs w) (w_cwd w) p)).
Proof.
  unfold os_path_isdir, try_except, catch, bind, os_stat, is_dir.
  destruct (stat (w_fs w) (w_cwd w) p) as [n | e] eqn:E.
  - destruct n; reflexivity.
  - rewrite (stat_error _ _ _ _ E). reflexivity.
Qed.

Lemma os_path_isfile_eq {L : TextLib} p w :
  os_path_isfile p w = (w, Ret (is_file (w_fs w) (w_cwd w) p)).
Proof.
  unfold os_path_isfile, try_except, catch, bind, os_stat, is_file.
  destruct (stat (w_fs w) (w_cwd w) p) as [n | e] eqn:E.
  - destruct n; reflexivity.
  - rewrite (stat_error _ _ _ _ E). reflexivity.
Qed.

Lemma os_path_islink_eq {L : TextLib} p w :
  os_path_islink p w = (w, Ret (is_link (w_fs w) (w_cwd w) p)).
Proof.
  unfold os_path_islink, try_except, catch, bind, os_lstat, is_link.
  destruct (lstat (w_fs w) (w_cwd w) p) as [n | e] eqn:E.
  - destruct n; reflexivity.
  - rewrite (lstat_error _ _ _ _ E). reflexivity.
Qed.

(** ** Stepwise invariants

    [R] relates the world before a call to the world after it.  When [R]
    is reflexive and transitive and every primitive step respects it, so
    does every program built from them.  [may_raise ok m] says moreover
    that [m] returns or raises an exception [ok] admits; [steps m], that
    it returns. *)

Section Steps.
Variable R : world -> world -> Prop.
Hypothesis R_refl : forall w, R w w.
Hypothesis R_trans : forall w1 w2 w3, R w1 w2 -> R w2 w3 -> R w1 w3.

Definition returns_or {A} (ok : exn -> bool) (r : result A) : Prop :=
  match r with
  | Ret _ => True
  | Raise e => ok e = true
  | Block => False
  end.

Definition may_raise {A} (ok : exn -> bool) (m : M A) : Prop :=
  forall w, R w (fst (m w)) /\ returns_or ok (snd (m w)).

Definition never (e : exn) : bool := false.

Definition steps {A} (m : M A) : Prop := may_raise never m.

Definition os_or_value (e : exn) : bool := is_OSError e || is_ValueError e.

Lemma may_raise_weaken {A} (ok ok' : exn -> bool) (m : M A) :
  (forall e, ok e = true -> ok' e = true) -> may_raise ok m -> may_raise ok' m.
Proof.
  intros H Hm w. destruct (Hm w) as [HR Hr]. split; [exact HR |].
  destruct (snd (m w)); simpl in *; auto.
Qed.

Lemma steps_may_raise {A} ok (m : M A) : steps m -> may_raise ok m.
Proof. apply may_raise_weaken. discriminate. Qed.

Lemma steps_ret {A} (a : A) : steps (ret a).
Proof. intro w. simpl. auto. Qed.

Lemma may_raise_raise {A} (ok : exn -> bool) e :
  ok e = true -> may_raise ok (@raise A e).
Proof. intros H w. simpl. auto. Qed.

Lemma steps_get {A} (f : world -> A) : steps (get f).
Proof. intro w. simpl. auto. Qed.

Lemma may_raise_bind {A B} ok (m : M A) (k : A -> M B) :
  may_raise ok m -> (forall a, may_raise ok (k a)) -> may_raise ok (bind m k).
Proof.
  intros Hm Hk w. unfold bind. destruct (Hm w) as [HR Hr].
  destruct (m w) as [w' [a | e | ]]; simpl in *; try contradiction.
  - destruct (Hk a w') as [HR' Hr']. split; [eapply R_trans; eauto | exact Hr'].
  - auto.
Qed.

Lemma steps_bind {A B} (m : M A) (k : A -> M B) :
  steps m -> (forall a, steps (k a)) -> steps (bind m k).
Proof. apply may_raise_bind. Qed.

(** [except OSError] lets a [ValueError] through. *)
Lemma may_raise_try_except_OSError {A} (m : M A) (h : M A) :
  may_raise os_or_value m -> may_raise is_ValueError h ->
  may_raise is_ValueError (try_except m is_OSError h).
Proof.
  intros Hm Hh w. unfold try_except, catch. destruct (Hm w) as [HR Hr].
  destruct (m w) as [w' [a | e | ]]; simpl in *; try contradiction; auto.
  destruct e as [| oe |]; simpl in *; try discriminate.
  - destruct (Hh w') as [HR' Hr']. split; [eapply R_trans; eauto | exact Hr'].
  - auto.
Qed.

Lemma steps_of_eq {A} (m : M A) (f : world -> A) :
  (forall w, m w = (w, Ret (f w))) -> steps m.
Proof. intros H w. rewrite H. simpl. auto. Qed.

(** The calls that only read the world. *)
Context {L : TextLib}.

Lemma steps_os_getcwd : steps os_getcwd.
Proof. apply steps_get. Qed.

Lemma steps_os_path_isdir p : steps (os_path_isdir p).
Proof. eapply steps_of_eq. apply os_path_isdir_eq. Qed.

Lemma steps_os_path_isfile p : steps (os_path_isfile p).
Proof. eapply steps_of_eq. apply os_path_isfile_eq. Qed.

Lemma steps_os_path_islink p : steps (os_path_islink p).
Proof. eapply steps_of_eq. apply os_path_islink_eq. Qed.

Lemma may_raise_open_rb p : may_raise os_or_value (open_rb p).
Proof.
  intro w. unfold open_rb.
  destruct (stat _ _ _) as [[c m [|]|es l|t]|e] eqn:E; simpl; auto.
  split; [auto |]. exact (stat_error _ _ _ _ E).
Qed.

Lemma may_raise_os_listdir p : may_raise os_or_value (os_listdir p).
Proof.
  intro w. unfold os_listdir.
  destruct (stat _ _ _) as [[c m r|es [|]|t]|e] eqn:E; simpl; auto.
  split; [auto |]. exact (stat_error _ _ _ _ E).
Qed.

(** The handler of connection [conn], given that [R] admits what it
    writes to the trace. *)
Variable conn : nat.
(** [sent] holds of the status codes [R] admits on the trace. *)
Variable sent : Z -> Prop.
(** [body_ok] holds when [R] admits a piece of response body. *)
Variable body_ok : Prop.
Hypothesis R_log_request :
  forall code w, R w (log_event (EvLogRequest conn code) w).
Hypothesis R_log_error :
  forall code w, R w (log_event (EvLogError conn code) w).
Hypothesis R_send_head :
  forall code hs w, sent code -> R w (log_event (EvSendHead conn code hs) w).
Hypothesis R_send_body :
  forall b w, body_ok -> R w (log_event (EvSendBody conn b) w).
Hypothesis sent_200 : sent HTTP_OK.
Hypothesis sent_301 : sent HTTP_MOVED_PERMANENTLY.
Hypothesis sent_304 : sent HTTP_NOT_MODIFIED.
Hypothesis sent_404 : sent HTTP_NOT_FOUND.
Hypothesis sent_501 : sent HTTP_NOT_IMPLEMENTED.

Lemma steps_emit e : (forall w, R w (log_event e w)) -> steps (emit e).
Proof. intros He w. simpl. auto. Qed.

Lemma steps_send_response r code hs :
  sent code -> steps (send_response conn r code hs).
Proof.
  intros Hc. unfold send_response.
  apply steps_bind; [apply steps_emit; auto | intros _].
  destruct (has_headers r); [apply steps_emit; auto | apply steps_ret].
Qed.

(** A request that gets no body, or any request when [R] admits one. *)
Definition quiet (r : request) : Prop :=
  command r = "HEAD"%string \/ body_ok.

Lemma steps_send_error r code msg explain :
  sent code -> quiet r -> steps (send_error conn r code msg explain).
Proof.
  intros Hc Hq. unfold send_error.
  apply steps_bind; [apply steps_emit; auto | intros _].
  apply steps_bind; [apply steps_send_response, Hc | intros _].
  destruct (_ && _); [| apply steps_ret].
  destruct (String.eqb (command r) "HEAD") eqn:Eh; cbn [negb andb];
    [apply steps_ret |].
  destruct (nonempty _); [| apply steps_ret].
  apply steps_emit. intros w. apply R_send_body.
  destruct Hq as [Hq | Hq]; [| exact Hq].
  rewrite Hq in Eh. discriminate.
Qed.

Lemma steps_list_entries p names : steps (list_entries p names).
Proof.
  induction names as [| n ns IH]; simpl; [apply steps_ret |].
  apply steps_bind; [apply steps_os_path_isdir | intros isd].
  apply steps_bind; [apply steps_os_path_islink | intros isl].
  apply steps_bind; [exact IH | intros; apply steps_ret].
Qed.

Lemma may_raise_list_directory r p :
  quiet r -> may_raise is_ValueError (list_directory conn r p).
Proof.
  intros Hq. unfold list_directory.
  apply may_raise_bind.
  - apply may_raise_try_except_OSError.
    + apply may_raise_bind;
        [apply may_raise_os_listdir | intros; apply steps_may_raise, steps_ret].
    + apply steps_may_raise.
      apply steps_bind;
        [apply steps_send_error; [apply sent_404 | exact Hq]
        | intros; apply steps_ret].
  - intros [l |]; [| apply steps_may_raise, steps_ret].
    apply may_raise_bind;
      [apply steps_may_raise, steps_list_entries | intros items].
    destruct (listing_page _ _ _); [| apply may_raise_raise; reflexivity].
    apply steps_may_raise.
    apply steps_bind;
      [apply steps_send_response, sent_200 | intros; apply steps_ret].
Qed.

Lemma may_raise_send_file_head r p :
  quiet r -> may_raise is_ValueError (send_file_head conn r p).
Proof.
  intros Hq. unfold send_file_head.
  destruct (endswith _ p).
  - apply steps_may_raise.
    apply steps_bind;
      [apply steps_send_error; [apply sent_404 | exact Hq]
      | intros; apply steps_ret].
  - apply may_raise_bind.
    + apply may_raise_try_except_OSError.
      * apply may_raise_bind;
          [apply may_raise_open_rb | intros; apply steps_may_raise, steps_ret].
      * apply steps_may_raise.
        apply steps_bind;
          [apply steps_send_error; [apply sent_404 | exact Hq]
          | intros; apply steps_ret].
    + intros [f |]; [| apply steps_may_raise, steps_ret].
      apply steps_may_raise.
      match goal with |- steps (if ?b then _ else _) => destruct b end.
      * apply steps_bind;
          [apply steps_send_response, sent_304 | intros; apply steps_ret].
      * apply steps_bind;
          [apply steps_send_response, sent_200 | intros; apply steps_ret].
Qed.

Lemma steps_find_index p names : steps (find_index p names).
Proof.
  induction names as [| n ns IH]; simpl; [apply steps_ret |].
  apply steps_bind; [apply steps_os_path_isfile | intros [|]].
  - apply steps_ret.
  - exact IH.
Qed.

Lemma may_raise_send_head d r :
  quiet r -> may_raise is_ValueError (send_head d conn r).
Proof.
  intros Hq. unfold send_head.
  apply may_raise_bind;
    [apply steps_may_raise, steps_os_path_isdir | intros [|]].
  - destruct (urlsplit_path _); [| apply may_raise_raise; reflexivity].
    destruct (negb _).
    + apply steps_may_raise.
      apply steps_bind;
        [apply steps_send_response, sent_301 | intros; apply steps_ret].
    + apply may_raise_bind;
        [apply steps_may_raise, steps_find_index | intros [i |]].
      * apply may_raise_send_file_head, Hq.
      * apply may_raise_list_directory, Hq.
  - apply may_raise_send_file_head, Hq.
Qed.

Lemma may_raise_do_GET d r :
  body_ok -> may_raise is_ValueError (do_GET d conn r).
Proof.
  intros Hb. unfold do_GET.
  apply may_raise_bind;
    [apply may_raise_send_head; right; exact Hb | intros [b |]];
    apply steps_may_raise.
  - apply steps_emit; auto.
  - apply steps_ret.
Qed.

Lemma may_raise_do_HEAD d r :
  quiet r -> may_raise is_ValueError (do_HEAD d conn r).
Proof.
  intros Hq. unfold do_HEAD.
  apply may_raise_bind;
    [apply may_raise_send_head, Hq | intros; apply steps_may_raise, steps_ret].
Qed.

(** Every input but a fault is answered, unless a [ValueError] ends the
    handler. *)
Lemma may_raise_handle_one_request d input :
  body_ok ->
  (forall e, input <> Fault e) ->
  (forall r code msg explain, input = BadRequest r code msg explain -> sent code) ->
  may_raise is_ValueError (handle_one_request d conn input).
Proof.
  intros Hb Hin Hbad. destruct input as [r | r code msg explain | | e]; simpl.
  - destruct (String.eqb _ "GET"); [apply may_raise_do_GET, Hb |].
    destruct (String.eqb _ "HEAD"); [apply may_raise_do_HEAD; right; exact Hb |].
    apply steps_may_raise, steps_send_error; [apply sent_501 | right; exact Hb].
  - apply steps_may_raise, steps_send_error; [| right; exact Hb].
    apply (Hbad r code msg explain). reflexivity.
  - apply steps_may_raise, steps_ret.
  - exfalso. apply (Hin e). reflexivity.
Qed.

Lemma may_raise_SimpleHTTPRequestHandler d input :
  body_ok ->
  (forall e, input <> Fault e) ->
  (forall r code msg explain, input = BadRequest r code msg explain -> sent code) ->
  may_raise is_ValueError (SimpleHTTPRequestHandler d conn input).
Proof.
  intros Hb Hin Hbad. unfold SimpleHTTPRequestHandler.
  apply may_raise_bind.
  - apply steps_may_raise. destruct d; [apply steps_ret | apply steps_os_getcwd].
  - intros; apply may_raise_handle_one_request; assumption.
Qed.

(** A fault is raised as it comes, before anything is written. *)
Lemma SimpleHTTPRequestHandler_fault d e w :
  SimpleHTTPRequestHandler d conn (Fault e) w = (w, Raise e).
Proof. destruct d; reflexivity. Qed.

End Steps.

(** ** What a handler changes: the trace, by events of its connection *)

Lemma extend_nil w : extend [] w = w.
Proof. destruct w. unfold extend. simpl. rewrite app_nil_r. reflexivity. Qed.

Lemma extend_extend t1 t2 w : extend t2 (extend t1 w) = extend (t1 ++ t2) w.
Proof. unfold extend. simpl. rewrite app_assoc. reflexivity. Qed.

Lemma log_event_extend e w : log_event e w = extend [e] w.
Proof. reflexivity. Qed.

Lemma extend_inj t1 t2 w : extend t1 w = extend t2 w -> t1 = t2.
Proof.
  unfold extend. intros H. injection H as H. exact (app_inv_head _ _ _ H).
Qed.

Lemma handled_refl conn w : handled conn w w.
Proof. exists []. split; [symmetry; apply extend_nil | reflexivity]. Qed.

Lemma handled_trans conn w1 w2 w3 :
  handled conn w1 w2 -> handled conn w2 w3 -> handled conn w1 w3.
Proof.
  intros [t1 [E1 F1]] [t2 [E2 F2]]. exists (t1 ++ t2). subst.
  split; [apply extend_extend |].
  rewrite forallb_app, F1, F2. reflexivity.
Qed.

Lemma handled_event conn e w :
  in_conn conn e = true -> handled conn w (log_event e w).
Proof.
  intros He. exists [e]. split; [reflexivity |]. simpl. rewrite He. reflexivity.
Qed.

(** The handler of the script answers every input but a fault and
    returns, unless a [ValueError] ends it; it leaves the world as it was
    but for the trace. *)
Lemma Handler_handled {L : TextLib} d conn input :
  (forall e, input <> Fault e) ->
  may_raise (handled conn) is_ValueError (Handler d conn input).
Proof.
  intros Hin. unfold Handler.
  apply (may_raise_SimpleHTTPRequestHandler (handled conn) (handled_refl conn)
           (handled_trans conn) conn (fun _ => True) True);
    try (intros; apply handled_event; simpl; apply Nat.eqb_refl);
    auto.
Qed.

(** Whatever the input, the handler adds events of its connection to the
    trace and changes nothing else. *)
Lemma Handler_writes {L : TextLib} d conn input w :
  exists t r,
    Handler d conn input w = (extend t w, r)
    /\ forallb (in_conn conn) t = true
    /\ match input with
       | Fault e => t = [] /\ r = Raise e
       | _ => r = Ret tt \/ r = Raise ValueError
       end.
Proof.
  assert (Hc : (exists e, input = Fault e) \/ (forall e, input <> Fault e)).
  { destruct input; eauto; right; intros; discriminate. }
  destruct Hc as [[e ->] | Hin].
  - exists [], (Raise e). unfold Handler.
    rewrite SimpleHTTPRequestHandler_fault, extend_nil. auto.
  - destruct (Handler_handled d conn input Hin w) as [[t [E F]] Hr].
    destruct (Handler d conn input w) as [w1 r]. cbn [fst snd] in *.
    exists t, r. subst w1. split; [reflexivity |]. split; [exact F |].
    assert (Hres : r = Ret tt \/ r = Raise ValueError).
    { destruct r as [[] | e |]; simpl in Hr; [auto | | contradiction].
      destruct e; try discriminate. auto. }
    destruct input; try exact Hres. exfalso. eapply Hin. reflexivity.
Qed.

(** ** What the accept loop changes *)

(** One turn of the loop on a connection, given what the handler does. *)
Lemma handle_request_noblock_run {L : TextLib} d conn input w u r :
  Handler d conn input (log_event (EvAccept conn) w)
  = (extend u (log_event (EvAccept conn) w), r) ->
  handle_request_noblock (the_server d) conn input w
  = match r with
    | Ret _ =>
        (extend ([EvAccept conn] ++ u ++ [EvCloseConn conn]) w, Ret tt)
    | Raise e =>
        if is_Exception e then
          (extend ([EvAccept conn] ++ u ++ [EvTraceback; EvCloseConn conn]) w,
           Ret tt)
        else
          (extend ([EvAccept conn] ++ u ++ [EvCloseConn conn]) w, Raise e)
    | Block => (extend ([EvAccept conn] ++ u) w, Block)
    end.
Proof.
  intros H.
  unfold handle_request_noblock, process_request, bind, catch, emit.
  cbn [RequestHandlerClass the_server]. rewrite H.
  destruct r as [a | e |].
  - unfold shutdown_request, emit. rewrite !log_event_extend, !extend_extend.
    reflexivity.
  - destruct (is_Exception e);
      unfold handle_error, shutdown_request, bind, emit, raise;
      rewrite !log_event_extend, !extend_extend, <- ?app_assoc; reflexivity.
  - rewrite !log_event_extend, !extend_extend. reflexivity.
Qed.

Lemma served_refl w : served w w.
Proof.
  exists [], (w_time_wait w). repeat split.
  rewrite extend_nil. destruct w; reflexivity.
Qed.

Lemma served_extend t w :
  forallb serving_event t = true -> one_at_a_time None t = Some None ->
  served w (extend t w).
Proof. intros F A. exists t, (w_time_wait w). repeat split; assumption. Qed.

Lemma one_at_a_time_app o t1 t2 :
  one_at_a_time o (t1 ++ t2) =
  match one_at_a_time o t1 with
  | Some o' => one_at_a_time o' t2
  | None => None
  end.
Proof.
  revert o. induction t1 as [| e t1 IH]; intros o; simpl; [reflexivity |].
  destruct (one_at_a_time_step o e); [apply IH | reflexivity].
Qed.

Lemma served_trans w1 w2 w3 : served w1 w2 -> served w2 w3 -> served w1 w3.
Proof.
  intros [t1 [tw1 [E1 [F1 A1]]]] [t2 [tw2 [E2 [F2 A2]]]].
  exists (t1 ++ t2), tw2. subst. repeat split.
  - unfold set_time_wait, extend. simpl. rewrite app_assoc. reflexivity.
  - rewrite forallb_app, F1, F2. reflexivity.
  - rewrite one_at_a_time_app, A1. exact A2.
Qed.

Lemma in_conn_one_at_a_time conn t :
  forallb (in_conn conn) t = true ->
  one_at_a_time (Some conn) t = Some (Some conn)
  /\ forallb serving_event t = true.
Proof.
  induction t as [| e t IH]; simpl; [auto |].
  intros H. apply andb_true_iff in H. destruct H as [He Ht].
  destruct (IH Ht) as [IH1 IH2].
  destruct e; simpl in *; try discriminate; rewrite He; auto.
Qed.

(** A connection from its accept to its close. *)
Lemma connection_served conn u mid w :
  forallb (in_conn conn) u = true ->
  mid = [] \/ mid = [EvTraceback] ->
  served w (extend ([EvAccept conn] ++ u ++ mid ++ [EvCloseConn conn]) w).
Proof.
  intros F Hmid. destruct (in_conn_one_at_a_time conn u F) as [A S].
  apply served_extend.
  - cbn [app forallb serving_event andb]. rewrite !forallb_app, S.
    destruct Hmid as [-> | ->]; reflexivity.
  - cbn [app one_at_a_time one_at_a_time_step].
    rewrite one_at_a_time_app, A.
    destruct Hmid as [-> | ->]; simpl; rewrite Nat.eqb_refl; reflexivity.
Qed.

Lemma handle_request_noblock_served {L : TextLib} d conn input w :
  served w (fst (handle_request_noblock (the_server d) conn input w))
  /\ snd (handle_request_noblock (the_server d) conn input w)
     = if is_interrupt (Incoming conn input) then Raise KeyboardInterrupt
       else Ret tt.
Proof.
  destruct (Handler_writes d conn input (log_event (EvAccept conn) w))
    as [u [r [E [F Hr]]]].
  rewrite (handle_request_noblock_run d conn input w u r E).
  destruct input as [q | q code msg explain | | e].
  - destruct Hr as [-> | ->]; cbn [is_Exception fst snd is_interrupt]; split;
      try reflexivity.
    + apply (connection_served conn u [] w F). auto.
    + apply (connection_served conn u [EvTraceback] w F). auto.
  - destruct Hr as [-> | ->]; cbn [is_Exception fst snd is_interrupt]; split;
      try reflexivity.
    + apply (connection_served conn u [] w F). auto.
    + apply (connection_served conn u [EvTraceback] w F). auto.
  - destruct Hr as [-> | ->]; cbn [is_Exception fst snd is_interrupt]; split;
      try reflexivity.
    + apply (connection_served conn u [] w F). auto.
    + apply (connection_served conn u [EvTraceback] w F). auto.
  - destruct Hr as [-> ->]. destruct e as [| oe |];
      cbn [is_Exception fst snd is_interrupt]; split; try reflexivity.
    + apply (connection_served conn [] [] w F). auto.
    + apply (connection_served conn [] [EvTraceback] w F). auto.
    + apply (connection_served conn [] [EvTraceback] w F). auto.
Qed.

Lemma serve_forever_served {L : TextLib} d events w :
  served w (fst (serve_forever (the_server d) events w))
  /\ snd (serve_forever (the_server d) events w)
     = if interrupted events then Raise KeyboardInterrupt else Block.
Proof.
  revert w. induction events as [| ev rest IH]; intros w.
  - simpl. split; [apply served_refl | reflexivity].
  - destruct ev as [| conn input | |].
    + simpl. apply IH.
    + destruct (handle_request_noblock_served d conn input w) as [S1 R1].
      change (serve_forever (the_server d) (Incoming conn input :: rest))
        with (handle_request_noblock (the_server d) conn input ;;
              serve_forever (the_server d) rest).
      unfold bind.
      destruct (handle_request_noblock (the_server d) conn input w) as [w1 r1].
      cbn [fst snd] in S1, R1. unfold interrupted. cbn [existsb].
      subst r1. destruct (is_interrupt (Incoming conn input)); cbn [orb].
      * split; [exact S1 | reflexivity].
      * destruct (IH w1) as [S2 R2]. split; [| exact R2].
        eapply served_trans; eauto.
    + simpl. apply IH.
    + simpl. split; [apply served_refl | reflexivity].
Qed.

(** The loop changes the trace only. *)
Lemma serve_forever_extends {L : TextLib} d events w :
  exists t, fst (serve_forever (the_server d) events w) = extend t w
            /\ forallb serving_event t = true
            /\ one_at_a_time None t = Some None.
Proof.
  revert w. induction events as [| ev rest IH]; intros w.
  - exists []. rewrite extend_nil. auto.
  - destruct ev as [| conn input | |].
    + simpl. apply IH.
    + change (serve_forever (the_server d) (Incoming conn input :: rest))
        with (handle_request_noblock (the_server d) conn input ;;
              serve_forever (the_server d) rest).
      unfold bind.
      destruct (Handler_writes d conn input (log_event (EvAccept conn) w))
        as [u [r [E [F Hr]]]].
      rewrite (handle_request_noblock_run d conn input w u r E).
      destruct (in_conn_one_at_a_time conn u F) as [A S].
      assert (Hone : forall mid, mid = [] \/ mid = [EvTraceback] ->
                forallb serving_event
                  ([EvAccept conn] ++ u ++ mid ++ [EvCloseConn conn]) = true
                /\ one_at_a_time None
                     ([EvAccept conn] ++ u ++ mid ++ [EvCloseConn conn])
                   = Some None).
      { intros mid Hmid. split.
        - cbn [app forallb serving_event andb]. rewrite !forallb_app, S.
          destruct Hmid as [-> | ->]; reflexivity.
        - cbn [app one_at_a_time one_at_a_time_step].
          rewrite one_at_a_time_app, A.
          destruct Hmid as [-> | ->]; simpl; rewrite Nat.eqb_refl; reflexivity. }
      assert (Hgo : forall mid, mid = [] \/ mid = [EvTraceback] ->
                exists t,
                  fst (serve_forever (the_server d) rest
                         (extend ([EvAccept conn] ++ u ++ mid ++ [EvCloseConn conn]) w))
                  = extend t w
                  /\ forallb serving_event t = true
                  /\ one_at_a_time None t = Some None).
      { intros mid Hmid. destruct (Hone mid Hmid) as [S1 A1].
        destruct (IH (extend ([EvAccept conn] ++ u ++ mid ++ [EvCloseConn conn]) w))
          as [t2 [E2 [S2 A2]]].
        exists (([EvAccept conn] ++ u ++ mid ++ [EvCloseConn conn]) ++ t2).
        rewrite E2, extend_extend. split; [reflexivity |]. split.
        - rewrite forallb_app, S1, S2. reflexivity.
        - rewrite one_at_a_time_app, A1. exact A2. }
      assert (Hstop : forall mid, mid = [] \/ mid = [EvTraceback] ->
                exists t,
                  extend ([EvAccept conn] ++ u ++ mid ++ [EvCloseConn conn]) w
                  = extend t w
                  /\ forallb serving_event t = true
                  /\ one_at_a_time None t = Some None).
      { intros mid Hmid. destruct (Hone mid Hmid) as [S1 A1]. eauto. }
      assert (Hres : (r = Ret tt \/ r = Raise ValueError)
                     \/ exists e, u = [] /\ r = Raise e).
      { destruct input; eauto; destruct Hr as [-> ->]; eauto. }
      destruct Hres as [[-> | ->] | [e [-> ->]]]; cbn [is_Exception].
      * apply (Hgo []). auto.
      * apply (Hgo [EvTraceback]). auto.
      * destruct e as [| oe |]; cbn [is_Exception fst].
        -- apply (Hstop []). auto.
        -- apply (Hgo [EvTraceback]). auto.
        -- apply (Hgo [EvTraceback]). auto.
    + simpl. apply IH.
    + exists []. cbn [serve_forever raise fst]. rewrite extend_nil. auto.
Qed.

(** ** The whole run of the script *)

Lemma banner :
  ("Serving chat app at http://localhost:" ++ format_int PORT)%string
  = "Serving chat app at http://localhost:8000"%string.
Proof. reflexivity. Qed.

Lemma not_bound_remove p l :
  existsb (Z.eqb p) l = false -> remove Z.eq_dec p l = l.
Proof.
  intros H. apply notin_remove. intros Hin.
  assert (existsb (Z.eqb p) l = true) as E.
  { apply existsb_exists. exists p. split; [exact Hin | apply Z.eqb_refl]. }
  congruence.
Qed.

Lemma stat_dir_lookup {L : TextLib} fs cwd d es l :
  stat fs cwd d = inl (Directory es l) ->
  lookup fs cwd true d = inl (real_key fs cwd d, Directory es l).
Proof.
  unfold stat, real_key. destruct (lookup fs cwd true d) as [[k n] | e];
    [intros [= ->]; reflexivity | discriminate].
Qed.

(** When the base directory exists and the port is not bound, the
    start-up goes through and the script enters its [try] statement. *)
Lemma module_body_started {L : TextLib} w file events es l :
  let d := DIRECTORY (getcwd w) file in
  stat (w_fs w) (w_cwd w) d = inl (Directory es l) ->
  existsb (Z.eqb PORT) (w_bound w) = false ->
  module_body "__main__" file events w
  = try_finally
      (try_except (serve_forever (the_server d) events)
         is_KeyboardInterrupt
         (print (newline ++ "Server stopped.")))
      (server_close (the_server d))
      (mkWorld (w_fs w) (real_key (w_fs w) (w_cwd w) d) true
         (PORT :: w_bound w) (w_time_wait w)
         (w_trace w ++ startup_events d)).
Proof.
  intros d Hdir Hport.
  unfold module_body, main, bind, os_getcwd, get, modify, os_chdir.
  cbn [String.eqb Ascii.eqb Bool.eqb].
  cbn [w_fs w_cwd set_allow_reuse_address].
  fold (getcwd w). fold d. rewrite (stat_dir_lookup _ _ _ _ _ Hdir).
  unfold TCPServer, server_bind, server_activate, socket_bind, bind, catch,
    emit, get, try_finally, print, ret.
  cbn [w_allow_reuse_address log_event set_cwd w_bound w_time_wait w_fs
       w_cwd w_trace snd fst set_allow_reuse_address].
  rewrite Hport. cbn [orb negb]. rewrite Bool.andb_false_r.
  rewrite banner.
  unfold the_server, startup_events, emit, log_event, set_bound.
  cbn [w_allow_reuse_address log_event set_cwd w_bound w_time_wait w_fs
       w_cwd w_trace snd fst set_allow_reuse_address].
  rewrite <- !app_assoc. reflexivity.
Qed.

(** Then the run is the start-up, the events of the accept loop, and,
    once SIGINT has come, the shutdown; without SIGINT the script is
    blocked in its loop. *)
Lemma module_body_main {L : TextLib} w file events es l :
  let d := DIRECTORY (getcwd w) file in
  let ws := mkWorld (w_fs w) (real_key (w_fs w) (w_cwd w) d) true
              (PORT :: w_bound w) (w_time_wait w)
              (w_trace w ++ startup_events d) in
  stat (w_fs w) (w_cwd w) d = inl (Directory es l) ->
  existsb (Z.eqb PORT) (w_bound w) = false ->
  exists t,
    fst (serve_forever (the_server d) events ws) = extend t ws
    /\ forallb serving_event t = true
    /\ one_at_a_time None t = Some None
    /\ module_body "__main__" file events w =
       if interrupted events then
         (mkWorld (w_fs w) (real_key (w_fs w) (w_cwd w) d) true (w_bound w)
            (w_time_wait w)
            (w_trace w ++ startup_events d ++ t ++ shutdown_events),
          Ret tt)
       else
         (mkWorld (w_fs w) (real_key (w_fs w) (w_cwd w) d) true
            (PORT :: w_bound w) (w_time_wait w)
            (w_trace w ++ startup_events d ++ t),
          Block).
Proof.
  intros d ws Hdir Hport.
  destruct (serve_forever_extends d events ws) as [t [Ew [Ft At]]].
  destruct (serve_forever_served d events ws) as [_ Hr].
  exists t. split; [exact Ew |]. split; [exact Ft |]. split; [exact At |].
  rewrite (module_body_started w file events es l Hdir Hport).
  fold d. fold ws. unfold try_finally, try_except, catch.
  destruct (serve_forever (the_server d) events ws) as [w2 r].
  cbn [fst snd] in Ew, Hr. subst w2 r.
  destruct (interrupted events).
  - cbn [is_KeyboardInterrupt]. unfold print, server_close,
      socket_close, the_server, bind, ret, modify, emit.
    cbn [sock_port]. unfold ws, extend, log_event, set_bound, shutdown_events.
    cbn [w_allow_reuse_address w_bound w_time_wait w_fs w_cwd w_trace].
    cbn [remove]. destruct (Z.eq_dec PORT PORT) as [_ | N]; [| congruence].
    rewrite (not_bound_remove _ _ Hport).
    rewrite <- !app_assoc. reflexivity.
  - unfold ws, extend.
    cbn [w_allow_reuse_address w_bound w_time_wait w_fs w_cwd w_trace].
    rewrite <- !app_assoc. reflexivity.
Qed.

(** ** Start-up failures *)

Lemma serving_events_silent t :
  forallb serving_event t = true ->
  prints t = [] /\ binds t = [] /\ closes t = 0.
Proof.
  induction t as [| e t IH]; simpl; [auto |].
  intros H. apply andb_true_iff in H. destruct H as [He Ht].
  destruct (IH Ht) as [P [B C]].
  destruct e; simpl in He; try discriminate; auto.
Qed.

Lemma prints_app t1 t2 : prints (t1 ++ t2) = prints t1 ++ prints t2.
Proof.
  induction t1 as [| e t1 IH]; [reflexivity |].
  destruct e; simpl; rewrite ?IH; reflexivity.
Qed.

Lemma binds_app t1 t2 : binds (t1 ++ t2) = binds t1 ++ binds t2.
Proof.
  induction t1 as [| e t1 IH]; [reflexivity |].
  destruct e; simpl; rewrite ?IH; reflexivity.
Qed.

Lemma closes_app t1 t2 : closes (t1 ++ t2) = closes t1 + closes t2.
Proof.
  induction t1 as [| e t1 IH]; [reflexivity |].
  destruct e; simpl; rewrite ?IH; reflexivity.
Qed.

Lemma accepts_app t1 t2 : accepts (t1 ++ t2) = accepts t1 ++ accepts t2.
Proof.
  induction t1 as [| e t1 IH]; [reflexivity |].
  destruct e; simpl; rewrite ?IH; reflexivity.
Qed.

(** When the port is taken the constructor fails after one attempt to
    bind, the unbound socket is closed, and the error leaves the script:
    nothing is printed and nothing is served. *)
Lemma module_body_bind_fails {L : TextLib} w file events es l :
  let d := DIRECTORY (getcwd w) file in
  stat (w_fs w) (w_cwd w) d = inl (Directory es l) ->
  existsb (Z.eqb PORT) (w_bound w) = true ->
  module_body "__main__" file events w
  = (mkWorld (w_fs w) (real_key (w_fs w) (w_cwd w) d) true (w_bound w)
       (w_time_wait w)
       (w_trace w ++ [EvChdir d; EvSocket; EvSetReuseAddr;
                      EvBind EmptyString PORT false; EvCloseListening]),
     Raise (OSError EADDRINUSE)).
Proof.
  intros d Hdir Hport.
  unfold module_body, main, bind, os_getcwd, get, modify, os_chdir.
  cbn [String.eqb Ascii.eqb Bool.eqb].
  cbn [w_fs w_cwd set_allow_reuse_address].
  fold (getcwd w). fold d. rewrite (stat_dir_lookup _ _ _ _ _ Hdir).
  unfold TCPServer, server_bind, server_activate, socket_bind, bind, catch,
    emit, get, try_finally, print, ret.
  cbn [w_allow_reuse_address log_event set_cwd w_bound w_time_wait w_fs
       w_cwd w_trace snd fst set_allow_reuse_address].
  rewrite Hport. cbn [orb].
  unfold socket_close, bind, emit, ret, raise, log_event.
  cbn [w_allow_reuse_address log_event set_cwd w_bound w_time_wait w_fs
       w_cwd w_trace snd fst set_allow_reuse_address].
  rewrite <- !app_assoc. reflexivity.
Qed.

(** When the base directory is not a directory [os.chdir] raises and
    nothing else happens. *)
Lemma module_body_chdir_fails {L : TextLib} w file events :
  let d := DIRECTORY (getcwd w) file in
  (forall es l, stat (w_fs w) (w_cwd w) d <> inl (Directory es l)) ->
  exists e,
    is_OSError e || is_ValueError e = true
    /\ module_body "__main__" file events w
       = (set_allow_reuse_address true w, Raise e).
Proof.
  intros d Hdir.
  unfold module_body, main, bind, os_getcwd, get, modify, os_chdir.
  cbn [String.eqb Ascii.eqb Bool.eqb].
  cbn [w_fs w_cwd set_allow_reuse_address].
  fold (getcwd w). fold d. unfold stat in Hdir.
  destruct (lookup (w_fs w) (w_cwd w) true d) as [[k [c m r | es l | t]] | e] eqn:E.
  - eexists. split; [| reflexivity]. reflexivity.
  - exfalso. apply (Hdir es l). reflexivity.
  - eexists. split; [| reflexivity]. reflexivity.
  - exists e. split; [exact (lookup_error _ _ _ _ _ E) | reflexivity].
Qed.

(** ** Text: splitting and joining on the separator *)

Lemma sapp_nil_r (s : string) : (s ++ "")%string = s.
Proof. induction s as [| a s IH]; simpl; [reflexivity | rewrite IH; reflexivity]. Qed.

Lemma sapp_assoc (a b c : string) :
  ((a ++ b) ++ c)%string = (a ++ (b ++ c))%string.
Proof. induction a as [| x a IH]; simpl; [reflexivity | rewrite IH; reflexivity]. Qed.

Lemma contains_app c (a b : string) :
  contains c (a ++ b) = contains c a || contains c b.
Proof.
  induction a as [| x a IH]; simpl; [reflexivity |].
  rewrite IH. apply orb_assoc.
Qed.

Lemma split_nonnil c s : split c s <> [].
Proof.
  destruct s as [| a s]; simpl; [discriminate |].
  destruct (Ascii.eqb a c); [discriminate |].
  destruct (split c s); discriminate.
Qed.

Lemma split_app_sep c (a b : string) :
  split c (a ++ String c b) = split c a ++ split c b.
Proof.
  induction a as [| x a IH].
  - simpl. rewrite Ascii.eqb_refl. reflexivity.
  - cbn [String.append split]. destruct (Ascii.eqb x c).
    + rewrite IH. reflexivity.
    + rewrite IH. destruct (split c a) as [| w ws] eqn:E.
      * exfalso. exact (split_nonnil _ _ E).
      * reflexivity.
Qed.

Lemma split_no_sep c s : contains c s = false -> split c s = [s].
Proof.
  induction s as [| a s IH]; simpl; [reflexivity |].
  intros H. apply orb_false_iff in H. destruct H as [Ha Hs].
  rewrite Ha, (IH Hs). reflexivity.
Qed.

Lemma split_In_no_sep c s w : In w (split c s) -> contains c w = false.
Proof.
  revert w. induction s as [| a s IH]; simpl; intros w Hin.
  - destruct Hin as [<- | []]. reflexivity.
  - destruct (Ascii.eqb a c) eqn:Ea.
    + destruct Hin as [<- | Hin]; [reflexivity | auto].
    + destruct (split c s) as [| w0 ws] eqn:E.
      * destruct Hin as [<- | []]. simpl. rewrite Ea. reflexivity.
      * destruct Hin as [<- | Hin].
        -- simpl. rewrite Ea. simpl. apply IH. left. reflexivity.
        -- apply IH. right. exact Hin.
Qed.

Lemma join_cons2 sep w w' ws :
  join sep (w :: w' :: ws) = (w ++ sep ++ join sep (w' :: ws))%string.
Proof. reflexivity. Qed.

Lemma join_snoc sep ws w :
  ws <> [] -> join sep (ws ++ [w]) = (join sep ws ++ sep ++ w)%string.
Proof.
  induction ws as [| x ws IH]; [congruence | intros _].
  destruct ws as [| y ws]; [reflexivity |].
  change ((x :: y :: ws) ++ [w]) with (x :: (y :: ws) ++ [w]).
  change ((y :: ws) ++ [w]) with (y :: (ws ++ [w])) at 1.
  rewrite join_cons2. change (y :: ws ++ [w]) with ((y :: ws) ++ [w]).
  rewrite IH by discriminate. rewrite join_cons2.
  rewrite !sapp_assoc. reflexivity.
Qed.

(** Names without a separator survive a round trip through [join] and
    [split]. *)
Lemma split_join ws :
  ws <> [] ->
  forallb (fun w => negb (contains PosixPath.sep w)) ws = true ->
  split PosixPath.sep (join "/" ws) = ws.
Proof.
  induction ws as [| w ws IH]; [congruence | intros _ H].
  simpl in H. apply andb_true_iff in H. destruct H as [Hw Hws].
  apply negb_true_iff in Hw.
  destruct ws as [| w' ws].
  - simpl. apply split_no_sep. exact Hw.
  - rewrite join_cons2.
    change ("/" ++ join "/" (w' :: ws))%string
      with (String PosixPath.sep (join "/" (w' :: ws))).
    rewrite split_app_sep, (split_no_sep _ _ Hw), IH by (discriminate || exact Hws).
    reflexivity.
Qed.


Lemma endswith_app c (a b : string) :
  b <> EmptyString -> endswith c (a ++ b) = endswith c b.
Proof.
  intros Hb. induction a as [| x a IH]; [reflexivity |].
  cbn [String.append]. 
  destruct (a ++ b)%string as [| y s] eqn:E.
  - destruct a; simpl in E; [congruence | discriminate].
  - cbn [endswith]. exact IH.
Qed.

Lemma endswith_no_sep c (w : string) :
  contains c w = false -> endswith c w = false.
Proof.
  induction w as [| x w IH]; simpl; [reflexivity |].
  intros H. apply orb_false_iff in H. destruct H as [Hx Hw].
  destruct w; [exact Hx | auto].
Qed.

Lemma startswith_app c (a b : string) :
  a <> EmptyString -> startswith c (a ++ b) = startswith c a.
Proof. destruct a; [congruence | reflexivity]. Qed.

(** ** Path resolution *)

Lemma simple_name_spec w :
  simple_name w = true ->
  is_name w = true /\ contains PosixPath.sep w = false /\ w <> EmptyString.
Proof.
  unfold simple_name, is_name. intros H.
  apply andb_true_iff in H. destruct H as [H H4].
  apply andb_true_iff in H. destruct H as [H H3].
  apply andb_true_iff in H. destruct H as [H1 H2].
  apply negb_true_iff in H4. rewrite H2, H3.
  destruct w; [discriminate |]. repeat split; auto. discriminate.
Qed.

Lemma walk_app st a b : walk st (a ++ b) = walk (walk st a) b.
Proof. apply fold_left_app. Qed.

Lemma walk_step_name st w : is_name w = true -> walk_step st w = w :: st.
Proof.
  unfold is_name, walk_step. intros H.
  apply andb_true_iff in H. destruct H as [H H3].
  apply andb_true_iff in H. destruct H as [H1 H2].
  apply negb_true_iff in H1, H2, H3. rewrite H1, H2, H3. reflexivity.
Qed.

Lemma walk_names st ws :
  forallb is_name ws = true -> walk st ws = rev ws ++ st.
Proof.
  revert st. induction ws as [| w ws IH]; intros st H; [reflexivity |].
  simpl in H. apply andb_true_iff in H. destruct H as [Hw Hws].
  cbn [walk fold_left]. rewrite (walk_step_name _ _ Hw).
  fold (walk (w :: st) ws). rewrite (IH _ Hws). simpl.
  rewrite <- app_assoc. reflexivity.
Qed.

Lemma simple_names_are_names ws :
  forallb simple_name ws = true -> forallb is_name ws = true.
Proof.
  induction ws as [| w ws IH]; simpl; [reflexivity |].
  intros H. apply andb_true_iff in H. destruct H as [Hw Hws].
  destruct (simple_name_spec _ Hw) as [-> _]. auto.
Qed.








(** ** [translate_path] *)

Lemma dirname_no_sep w :
  contains PosixPath.sep w = false -> PosixPath.dirname w = EmptyString.
Proof.
  intros H. unfold PosixPath.dirname.
  assert (E : upto_last PosixPath.sep w = EmptyString).
  { destruct w as [| a w]; [reflexivity |]. simpl in *. rewrite H. reflexivity. }
  rewrite E. reflexivity.
Qed.


Lemma translate_loop words (a : string) :
  (forall w, In w words -> contains PosixPath.sep w = false) ->
  fold_left
    (fun path word =>
       if nonempty (PosixPath.dirname word)
          || String.eqb word PosixPath.curdir
          || String.eqb word PosixPath.pardir
       then path else PosixPath.join path word)
    words a
  = fold_left PosixPath.join
      (filter (fun w => negb (String.eqb w PosixPath.curdir
                              || String.eqb w PosixPath.pardir)) words) a.
Proof.
  revert a. induction words as [| w ws IH]; intros a H; [reflexivity |].
  cbn [fold_left filter].
  rewrite (dirname_no_sep w) by (apply H; left; reflexivity).
  cbn [nonempty orb].
  destruct (String.eqb w PosixPath.curdir || String.eqb w PosixPath.pardir);
    cbn [negb fold_left]; apply IH; intros; apply H; right; assumption.
Qed.

(** The translated path is the directory joined with simple names, with a
    separator added when the request path ended with one. *)
Lemma translate_path_shape {L : TextLib} (d p : string) :
  let raw := split1_head "#" (split1_head "?" p) in
  translate_path d p =
  (fold_left PosixPath.join (kept_words (PosixPath.normpath (unquote raw))) d
   ++ (if endswith "/" (rstrip raw) then "/" else ""))%string.
Proof.
  intros raw. unfold translate_path. fold raw.
  rewrite translate_loop.
  - fold (kept_words (PosixPath.normpath (unquote raw))).
    destruct (endswith "/" (rstrip raw)); [reflexivity |].
    rewrite sapp_nil_r. reflexivity.
  - intros w Hin. apply filter_In in Hin. destruct Hin as [Hin _].
    exact (split_In_no_sep _ _ _ Hin).
Qed.



(** ** [normpath], [dirname] and the base directory *)

Lemma last_name_not_pardir acc :
  forallb is_name acc = true -> String.eqb (last acc "") PosixPath.pardir = false.
Proof.
  induction acc as [| a acc IH]; [reflexivity |].
  intros H. simpl in H. apply andb_true_iff in H. destruct H as [Ha Hacc].
  destruct acc as [| b acc].
  - simpl. unfold is_name in Ha.
    apply andb_true_iff in Ha. destruct Ha as [_ Ha].
    apply negb_true_iff in Ha. exact Ha.
  - change (last (a :: b :: acc) "") with (last (b :: acc) ""). auto.
Qed.

Lemma rev_removelast {A} (l : list A) : rev (removelast l) = tl (rev l).
Proof.
  destruct (rev l) as [| x r] eqn:E.
  - apply (f_equal (@rev A)) in E. rewrite rev_involutive in E. subst. reflexivity.
  - apply (f_equal (@rev A)) in E. rewrite rev_involutive in E. subst.
    simpl. rewrite removelast_last, rev_involutive. reflexivity.
Qed.

Lemma forallb_removelast {A} (f : A -> bool) l :
  forallb f l = true -> forallb f (removelast l) = true.
Proof.
  induction l as [| a l IH]; [reflexivity |].
  intros H. simpl in H. apply andb_true_iff in H. destruct H as [Ha Hl].
  destruct l as [| b l]; [reflexivity |].
  change (removelast (a :: b :: l)) with (a :: removelast (b :: l)).
  simpl forallb at 1. rewrite Ha. apply IH. exact Hl.
Qed.

(** On an absolute path the loop of [normpath] is the kernel's walk. *)
Lemma normpath_comps_abs k acc comps :
  k <> 0 -> forallb is_name acc = true ->
  PosixPath.normpath_comps k acc comps = rev (walk (rev acc) comps).
Proof.
  intros Hk. revert acc. induction comps as [| c rest IH]; intros acc Hacc.
  - simpl. rewrite rev_involutive. reflexivity.
  - cbn [PosixPath.normpath_comps walk fold_left]. fold (walk (walk_step (rev acc) c) rest).
    unfold walk_step, PosixPath.curdir.
    destruct (String.eqb c "" || String.eqb c ".") eqn:E1; [apply IH; exact Hacc |].
    destruct (String.eqb c "..") eqn:E2.
    + unfold PosixPath.pardir at 1. rewrite E2. cbn [negb orb].
      rewrite (proj2 (Nat.eqb_neq k 0) Hk). cbn [andb orb].
      rewrite (last_name_not_pardir _ Hacc), andb_false_r.
      rewrite <- rev_removelast. apply IH. apply forallb_removelast, Hacc.
    + unfold PosixPath.pardir at 1. rewrite E2. cbn [negb orb].
      change (c :: rev acc) with (rev [c] ++ rev acc). rewrite <- rev_app_distr.
      apply IH. rewrite forallb_app, Hacc. simpl.
      apply orb_false_iff in E1. destruct E1 as [E0 E1].
      unfold is_name. rewrite E0, E1, E2. reflexivity.
Qed.

Lemma normpath_abs p :
  PosixPath.isabs p = true ->
  exists k, k <> 0 /\
    PosixPath.normpath p
    = (PosixPath.seps k ++ join "/" (rev (walk [] (split PosixPath.sep p))))%string.
Proof.
  intros Hp. unfold PosixPath.normpath, PosixPath.isabs in *.
  destruct p as [| a p]; [discriminate |].
  cbn [String.eqb]. rewrite Hp.
  set (k := if (String.prefix "//" (String a p) && negb (String.prefix "///" (String a p)))%bool
            then 2 else 1).
  assert (Hk : k <> 0) by (unfold k; destruct (_ && _); discriminate).
  exists k. split; [exact Hk |].
  rewrite (normpath_comps_abs k [] _ Hk eq_refl). simpl rev at 2.
  destruct k as [| k']; [congruence |]. reflexivity.
Qed.

Lemma walk_simple st comps :
  (forall w, In w comps -> contains PosixPath.sep w = false) ->
  forallb simple_name st = true ->
  forallb simple_name (walk st comps) = true.
Proof.
  revert st. induction comps as [| c rest IH]; intros st Hc Hst; [exact Hst |].
  cbn [walk fold_left]. apply IH; [intros; apply Hc; right; assumption |].
  unfold walk_step.
  destruct (String.eqb c "" || String.eqb c ".") eqn:E1; [exact Hst |].
  destruct (String.eqb c "..") eqn:E2.
  - destruct st as [| x st]; [reflexivity |]. simpl in Hst.
    apply andb_true_iff in Hst. apply Hst.
  - simpl. rewrite Hst, andb_true_r. unfold simple_name.
    apply orb_false_iff in E1. destruct E1 as [E0 E1].
    rewrite E1, E2, (Hc c (or_introl eq_refl)).
    destruct c; [discriminate | reflexivity].
Qed.

Lemma forallb_rev {A} (f : A -> bool) l : forallb f (rev l) = forallb f l.
Proof.
  induction l as [| a l IH]; [reflexivity |].
  simpl. rewrite forallb_app, IH. simpl. rewrite andb_true_r. apply andb_comm.
Qed.

Lemma simple_names_no_sep ws :
  forallb simple_name ws = true ->
  forallb (fun w => negb (contains PosixPath.sep w)) ws = true.
Proof.
  induction ws as [| w ws IH]; simpl; [reflexivity |].
  intros H. apply andb_true_iff in H. destruct H as [Hw Hws].
  destruct (simple_name_spec _ Hw) as [_ [-> _]]. auto.
Qed.

Lemma split_seps k (s : string) :
  split PosixPath.sep (PosixPath.seps k ++ s) = repeat EmptyString k ++ split PosixPath.sep s.
Proof.
  induction k as [| k IH]; [reflexivity |].
  cbn [PosixPath.seps String.append split repeat].
  rewrite Ascii.eqb_refl, IH. reflexivity.
Qed.

Lemma walk_empties st k comps :
  walk st (repeat EmptyString k ++ comps) = walk st comps.
Proof. induction k as [| k IH]; [reflexivity | exact IH]. Qed.

(** A normal absolute path names the key it spells. *)
Lemma resolve_normal cwd k cs :
  k <> 0 -> forallb simple_name cs = true ->
  resolve cwd (PosixPath.seps k ++ join "/" cs) = cs.
Proof.
  intros Hk Hcs. unfold resolve, PosixPath.isabs.
  destruct k as [| k]; [congruence |].
  cbn [PosixPath.seps String.append startswith]. rewrite Ascii.eqb_refl.
  change (String PosixPath.sep (PosixPath.seps k ++ join "/" cs))
    with (PosixPath.seps (S k) ++ join "/" cs)%string.
  rewrite split_seps, walk_empties.
  destruct cs as [| c cs]; [reflexivity |].
  rewrite split_join by (discriminate || apply simple_names_no_sep, Hcs).
  rewrite walk_names by (apply simple_names_are_names, Hcs).
  rewrite app_nil_r. apply rev_involutive.
Qed.

Lemma upto_last_all c s : all_char c s = true -> upto_last c s = s.
Proof.
  induction s as [| a s IH]; simpl; [reflexivity |].
  intros H. apply andb_true_iff in H. destruct H as [Ha Hs].
  rewrite Ha, (IH Hs). reflexivity.
Qed.

Lemma upto_last_app_no_sep c (a b : string) :
  contains c b = false -> upto_last c (a ++ b) = upto_last c a.
Proof.
  intros Hb. induction a as [| x a IH].
  - simpl. destruct b as [| y b]; [reflexivity |]. simpl in *. rewrite Hb.
    reflexivity.
  - cbn [String.append upto_last]. rewrite contains_app, Hb, orb_false_r, IH.
    reflexivity.
Qed.

Lemma upto_last_snoc_sep c (a : string) :
  upto_last c (a ++ String c "") = (a ++ String c "")%string.
Proof.
  induction a as [| x a IH].
  - simpl. rewrite Ascii.eqb_refl. reflexivity.
  - cbn [String.append upto_last]. rewrite contains_app. simpl.
    rewrite Ascii.eqb_refl, IH. rewrite !orb_true_r. reflexivity.
Qed.

Lemma all_char_seps k : all_char PosixPath.sep (PosixPath.seps k) = true.
Proof. induction k as [| k IH]; [reflexivity | exact IH]. Qed.

Lemma all_char_app c (a b : string) :
  all_char c (a ++ b) = all_char c a && all_char c b.
Proof.
  induction a as [| x a IH]; simpl; [reflexivity |].
  rewrite IH. apply andb_assoc.
Qed.

Lemma all_char_no_sep c (w : string) :
  w <> EmptyString -> contains c w = false -> all_char c w = false.
Proof.
  destruct w as [| a w]; [congruence |]. simpl. intros _ H.
  apply orb_false_iff in H. destruct H as [-> _]. reflexivity.
Qed.

Lemma rstrip_char_snoc c (a : string) :
  rstrip_char c (a ++ String c "") = rstrip_char c a.
Proof.
  induction a as [| x a IH].
  - simpl. rewrite Ascii.eqb_refl. reflexivity.
  - cbn [String.append rstrip_char]. rewrite IH. reflexivity.
Qed.

Lemma rstrip_char_id c (a : string) :
  endswith c a = false -> rstrip_char c a = a.
Proof.
  induction a as [| x a IH]; [reflexivity |].
  cbn [endswith rstrip_char]. destruct a as [| y a].
  - simpl. intros ->. reflexivity.
  - intros H. rewrite (IH H). reflexivity.
Qed.

Lemma join_first_nonempty w ws :
  w <> EmptyString -> join "/" (w :: ws) <> EmptyString.
Proof.
  intros Hw. destruct ws; simpl; [exact Hw |].
  destruct w; [congruence | discriminate].
Qed.

Lemma seps_nonempty k : k <> 0 -> PosixPath.seps k <> EmptyString.
Proof. destruct k; [congruence | discriminate]. Qed.

Lemma sapp_nonempty_l (a b : string) :
  a <> EmptyString -> (a ++ b)%string <> EmptyString.
Proof. destruct a; [congruence | discriminate]. Qed.


(** The last of several simple names ends the joined text, so it does not
    end with a separator. *)
Lemma endswith_join_simple cs :
  cs <> [] -> forallb simple_name cs = true ->
  endswith PosixPath.sep (join "/" cs) = false.
Proof.
  intros Hne H. destruct (exists_last Hne) as [cs' [c E]]. subst cs.
  rewrite forallb_app in H. apply andb_true_iff in H. destruct H as [_ Hc].
  simpl in Hc. rewrite andb_true_r in Hc.
  destruct (simple_name_spec _ Hc) as [_ [Hs Hn]].
  destruct cs' as [| x cs'].
  - simpl. apply endswith_no_sep, Hs.
  - rewrite join_snoc by discriminate.
    rewrite <- sapp_assoc, endswith_app by exact Hn.
    apply endswith_no_sep, Hs.
Qed.

(** [dirname] of a normal absolute path drops its last name. *)
Lemma dirname_normal k cs :
  k <> 0 -> forallb simple_name cs = true ->
  PosixPath.dirname (PosixPath.seps k ++ join "/" cs)
  = (PosixPath.seps k ++ join "/" (removelast cs))%string.
Proof.
  intros Hk H. unfold PosixPath.dirname.
  destruct cs as [| c0 cs0] eqn:Ecs.
  - simpl join. rewrite sapp_nil_r, (upto_last_all _ _ (all_char_seps k)).
    rewrite all_char_seps, andb_false_r. reflexivity.
  - rewrite <- Ecs in *. assert (Hne : cs <> []) by (rewrite Ecs; discriminate).
    clear Ecs c0 cs0.
    destruct (exists_last Hne) as [cs' [c E]]. subst cs.
    rewrite removelast_last.
    rewrite forallb_app in H. apply andb_true_iff in H. destruct H as [Hcs' Hc].
    simpl in Hc. rewrite andb_true_r in Hc.
    destruct (simple_name_spec _ Hc) as [_ [Hs Hn]].
    destruct cs' as [| x cs'].
    + cbn [app join]. rewrite (upto_last_app_no_sep _ _ _ Hs).
      rewrite (upto_last_all _ _ (all_char_seps k)).
      rewrite all_char_seps, andb_false_r, sapp_nil_r. reflexivity.
    + rewrite join_snoc by discriminate.
      change ("/" ++ c)%string with (String PosixPath.sep "" ++ c)%string.
      rewrite <- !sapp_assoc. rewrite (upto_last_app_no_sep _ _ _ Hs).
      rewrite upto_last_snoc_sep.
      assert (Hx : simple_name x = true).
      { simpl in Hcs'. apply andb_true_iff in Hcs'. apply Hcs'. }
      destruct (simple_name_spec _ Hx) as [_ [Hxs Hxn]].
      assert (Hnall : all_char PosixPath.sep
                ((PosixPath.seps k ++ join "/" (x :: cs')) ++ String PosixPath.sep "")
              = false).
      { rewrite !all_char_app.
        assert (all_char PosixPath.sep (join "/" (x :: cs')) = false) as ->.
        { destruct cs' as [| y cs'].
          - simpl. apply all_char_no_sep; assumption.
          - rewrite join_cons2, all_char_app, (all_char_no_sep _ _ Hxn Hxs).
            reflexivity. }
        rewrite andb_false_r. reflexivity. }
      rewrite Hnall.
      assert (Hnonempty : nonempty
                ((PosixPath.seps k ++ join "/" (x :: cs')) ++ String PosixPath.sep "")
              = true).
      { destruct k; [congruence | reflexivity]. }
      rewrite Hnonempty. cbn [negb andb].
      rewrite rstrip_char_snoc.
      apply rstrip_char_id.
      rewrite endswith_app by (apply join_first_nonempty, Hxn).
      apply endswith_join_simple; [discriminate | exact Hcs'].
Qed.

Lemma join_isabs (g file : string) :
  PosixPath.isabs g = true -> PosixPath.isabs (PosixPath.join g file) = true.
Proof.
  intros Hg. unfold PosixPath.join, PosixPath.isabs in *.
  destruct (startswith PosixPath.sep file) eqn:E; [exact E |].
  assert (Hne : g <> EmptyString) by (destruct g; [discriminate | discriminate]).
  destruct (_ || _); rewrite startswith_app by exact Hne; exact Hg.
Qed.

(** [DIRECTORY] is a normal absolute path: the script's absolute path
    without its last name. *)
Lemma DIRECTORY_normal (g file : string) :
  PosixPath.isabs g = true ->
  exists k cs,
    k <> 0
    /\ forallb simple_name cs = true
    /\ cs = rev (walk [] (split PosixPath.sep
                   (if PosixPath.isabs file then file else PosixPath.join g file)))
    /\ DIRECTORY g file = (PosixPath.seps k ++ join "/" (removelast cs))%string.
Proof.
  intros Hg. unfold DIRECTORY, PosixPath.abspath.
  set (p := if PosixPath.isabs file then file else PosixPath.join g file).
  assert (Hp : PosixPath.isabs p = true).
  { unfold p. destruct (PosixPath.isabs file) eqn:E; [exact E |].
    apply join_isabs, Hg. }
  destruct (normpath_abs p Hp) as [k [Hk E]].
  exists k, (rev (walk [] (split PosixPath.sep p))).
  assert (Hcs : forallb simple_name (rev (walk [] (split PosixPath.sep p))) = true).
  { rewrite forallb_rev. apply walk_simple; [| reflexivity].
    intros w Hw. exact (split_In_no_sep _ _ _ Hw). }
  repeat split; auto.
  rewrite E. apply dirname_normal; assumption.
Qed.

Lemma getcwd_isabs w : PosixPath.isabs (getcwd w) = true.
Proof. reflexivity. Qed.

Lemma DIRECTORY_isabs g file :
  PosixPath.isabs g = true -> PosixPath.isabs (DIRECTORY g file) = true.
Proof.
  intros Hg. destruct (DIRECTORY_normal g file Hg) as [k [cs [Hk [_ [_ E]]]]].
  rewrite E. destruct k; [congruence | reflexivity].
Qed.


(** The absolute path of the script walks to the key the script's own
    path names. *)
Lemma abspath_walk cwd file :
  forallb simple_name cwd = true ->
  rev (walk [] (split PosixPath.sep
         (if PosixPath.isabs file then file
          else PosixPath.join ("/" ++ join "/" cwd) file)))
  = resolve cwd file.
Proof.
  intros Hcwd. unfold resolve.
  destruct (PosixPath.isabs file) eqn:Ef; [reflexivity |].
  f_equal. unfold PosixPath.join. unfold PosixPath.isabs in Ef. rewrite Ef.
  destruct cwd as [| c cwd].
  - simpl. reflexivity.
  - assert (Hend : endswith PosixPath.sep ("/" ++ join "/" (c :: cwd)) = false).
    { assert (Hc : simple_name c = true).
      { simpl in Hcwd. apply andb_true_iff in Hcwd. apply Hcwd. }
      rewrite endswith_app
        by (apply join_first_nonempty, (simple_name_spec _ Hc)).
      apply endswith_join_simple; [discriminate | exact Hcwd]. }
    rewrite Hend. cbn [nonempty String.append negb orb].
    change (String "/" (join "/" (c :: cwd) ++ String "/" file))
      with (String PosixPath.sep (join "/" (c :: cwd))
            ++ String PosixPath.sep file)%string.
    rewrite split_app_sep, walk_app. f_equal.
    cbn [split]. rewrite Ascii.eqb_refl.
    rewrite split_join by (discriminate || apply simple_names_no_sep, Hcwd).
    change (walk [] (EmptyString :: c :: cwd)) with (walk [] (c :: cwd)).
    rewrite walk_names by (apply simple_names_are_names, Hcwd).
    apply app_nil_r.
Qed.

(** The base directory is the directory that holds the script. *)
Lemma DIRECTORY_parent w file :
  forallb simple_name (w_cwd w) = true ->
  resolve (w_cwd w) (DIRECTORY (getcwd w) file)
  = removelast (resolve (w_cwd w) file).
Proof.
  intros Hcwd.
  destruct (DIRECTORY_normal (getcwd w) file (getcwd_isabs w))
    as [k [cs [Hk [Hcs [Ecs E]]]]].
  rewrite E, resolve_normal by (auto using forallb_removelast).
  f_equal. rewrite Ecs. apply abspath_walk, Hcwd.
Qed.

(** ** The path of a file below the directory *)







(** ** One request, step by step *)

Lemma send_response_run {L : TextLib} conn r code hs w :
  send_response conn r code hs w
  = (extend (response_head conn r code hs) w, Ret tt).
Proof.
  unfold send_response, response_head, server_and_date, bind, emit, ret.
  destruct (has_headers r); rewrite !log_event_extend, ?extend_extend;
    reflexivity.
Qed.

Lemma send_error_run {L : TextLib} conn r code msg explain w :
  with_page code = true ->
  send_error conn r code msg explain w
  = (extend (error_response conn r code msg explain) w, Ret tt).
Proof.
  intros Hc. unfold send_error, error_response, bind, emit.
  unfold with_page in Hc. rewrite Hc.
  rewrite log_event_extend, send_response_run, extend_extend.
  destruct (negb (String.eqb (command r) "HEAD") && _).
  - unfold emit. rewrite log_event_extend, extend_extend. reflexivity.
  - unfold ret. rewrite app_nil_r. reflexivity.
Qed.


Lemma body_app conn t1 t2 :
  body conn (t1 ++ t2) = (body conn t1 ++ body conn t2)%string.
Proof.
  induction t1 as [| e t1 IH]; [reflexivity |].
  destruct e; simpl; rewrite ?IH; try reflexivity.
  destruct (Nat.eqb _ _); simpl; rewrite ?IH, ?sapp_assoc; reflexivity.
Qed.


Lemma body_response_head {L : TextLib} conn r code hs :
  body conn (response_head conn r code hs) = EmptyString.
Proof. unfold response_head. destruct (has_headers r); reflexivity. Qed.


Lemma body_error_response {L : TextLib} conn r code msg explain :
  body conn (error_response conn r code msg explain)
  = if String.eqb (command r) "HEAD" then EmptyString
    else error_page code msg explain.
Proof.
  unfold error_response. cbn [body]. rewrite body_app, body_response_head.
  destruct (String.eqb (command r) "HEAD"); cbn [negb andb]; [reflexivity |].
  destruct (error_page code msg explain) eqn:E; cbn [nonempty].
  - reflexivity.
  - simpl. rewrite Nat.eqb_refl, sapp_nil_r. reflexivity.
Qed.



(** [stat] follows links: it never answers with one. *)
Lemma namei_nil fs links follow dir :
  namei fs links follow dir []
  = match fs dir with
    | Some n => inl (dir, n)
    | None => inr ENOENT
    end.
Proof. destruct links; reflexivity. Qed.

Lemma namei_cons fs links follow dir c rest :
  namei fs links follow dir (c :: rest)
  = if String.eqb c "" || String.eqb c "." then namei fs links follow dir rest
    else if String.eqb c ".." then namei fs links follow (removelast dir) rest
    else
      match fs (dir ++ [c]) with
      | None => inr ENOENT
      | Some (Directory _ _) => namei fs links follow (dir ++ [c]) rest
      | Some (RegFile content mtime readable) =>
          match rest with
          | [] => inl (dir ++ [c], RegFile content mtime readable)
          | _ :: _ => inr ENOTDIR
          end
      | Some (Symlink target) =>
          match rest, follow with
          | [], false => inl (dir ++ [c], Symlink target)
          | _, _ =>
              match links with
              | O => inr ELOOP
              | S links' =>
                  if String.eqb target "" then inr ENOENT
                  else
                    namei fs links' follow
                      (if PosixPath.isabs target then [] else dir)
                      (split PosixPath.sep target ++ rest)
              end
          end
      end.
Proof. destruct links; reflexivity. Qed.

(** Where the walk ends, there the node is. *)
Lemma namei_found fs links follow dir comps k n :
  namei fs links follow dir comps = inl (k, n) -> fs k = Some n.
Proof.
  revert dir comps. induction links as [| links IH];
    intros dir comps; revert dir;
    (induction comps as [| c rest IHc]; intros dir;
     [rewrite namei_nil; destruct (fs dir) eqn:E; [intros [= <- <-]; exact E | discriminate]
     | rewrite namei_cons;
       destruct (String.eqb c "" || String.eqb c "."); [apply IHc |];
       destruct (String.eqb c ".."); [apply IHc |];
       destruct (fs (dir ++ [c])) as [[content mtime readable | es l | target] |] eqn:E;
       [ destruct rest; [intros [= <- <-]; exact E | discriminate]
       | apply IHc
       |
       | discriminate ] ]).
  - destruct rest; destruct follow; try discriminate.
    intros [= <- <-]. exact E.
  - destruct rest; destruct follow;
      try (destruct (String.eqb target ""); [discriminate | apply IH]).
    intros [= <- <-]. exact E.
Qed.


(** ** The status codes of the handler *)






(** ** The walk along names that are no links *)







(** ** No [..] in the paths of the handler *)










Lemma forallb_removelast_simple cs :
  forallb simple_name cs = true -> forallb simple_name (removelast cs) = true.
Proof. apply forallb_removelast. Qed.


Lemma translate_path_isabs {L : TextLib} (d p : string) :
  PosixPath.isabs d = true -> PosixPath.isabs (translate_path d p) = true.
Proof.
  intros Hd. rewrite translate_path_shape. cbv zeta.
  set (ws := kept_words _).
  assert (Hj : PosixPath.isabs (fold_left PosixPath.join ws d) = true).
  { clearbody ws. revert d Hd. induction ws as [| x ws IH]; intros d Hd.
    - exact Hd.
    - simpl. apply IH, join_isabs, Hd. }
  unfold PosixPath.isabs in *.
  rewrite startswith_app; [exact Hj |].
  intros E. rewrite E in Hj. discriminate.
Qed.

(** ** The handler reads at and below its directory only, unless a link
    leads it away

    [fs'] is another filesystem that agrees with the one at hand on every
    key on the way to [base] and at or below it, where the one at hand
    has no symbolic link.  A call is confined when running it on [fs']
    instead changes nothing: same result, same final world. *)

Section Confined.
Context {L : TextLib}.
Variable cwd base : list string.
Variable fs' : filesystem.

Definition agrees (w : world) : Prop :=
  w_cwd w = cwd
  /\ forall k, on_chain base k ->
       fs' k = w_fs w k /\ forall t, w_fs w k <> Some (Symlink t).


Definition confined {A} (Q : A -> Prop) (m : M A) : Prop :=
  forall w, agrees w ->
    m (set_fs fs' w) = (set_fs fs' (fst (m w)), snd (m w))
    /\ agrees (fst (m w))
    /\ forall a, snd (m w) = Ret a -> Q a.






Lemma confined_weaken {A} (Q Q' : A -> Prop) m :
  (forall a, Q a -> Q' a) -> confined Q m -> confined Q' m.
Proof.
  intros HQ Hm w Hw. destruct (Hm w Hw) as [E [Hw' H]].
  split; [exact E |]. split; [exact Hw' | auto].
Qed.











Variable conn : nat.









End Confined.

(** ** What the handler's answer depends on

    [V] changes the world in a way that commutes with writing to the
    trace and that path resolution does not see on absolute paths.  The
    handler commutes with every such change. *)

Section Invariance.
Context {L : TextLib}.
Variable V : world -> world.
Hypothesis V_log : forall e w, V (log_event e w) = log_event e (V w).
Hypothesis V_lookup :
  forall w follow p, PosixPath.isabs p = true ->
    lookup (w_fs (V w)) (w_cwd (V w)) follow p
    = lookup (w_fs w) (w_cwd w) follow p.

Definition commutes {A} (Q : A -> Prop) (m : M A) : Prop :=
  forall w,
    m (V w) = (V (fst (m w)), snd (m w))
    /\ forall a, snd (m w) = Ret a -> Q a.

Definition whatever {A} (a : A) : Prop := True.

Lemma commutes_ret {A} (Q : A -> Prop) a : Q a -> commutes Q (ret a).
Proof.
  intros HQ w. split; [reflexivity |].
  simpl. intros a' E. injection E as <-. exact HQ.
Qed.

Lemma commutes_raise {A} (Q : A -> Prop) e : commutes Q (raise e).
Proof. intros w. split; [reflexivity | intros; discriminate]. Qed.

Lemma commutes_bind {A B} (Q : A -> Prop) (Q' : B -> Prop) m (k : A -> M B) :
  commutes Q m -> (forall a, Q a -> commutes Q' (k a)) ->
  commutes Q' (bind m k).
Proof.
  intros Hm Hk w. unfold bind.
  destruct (Hm w) as [E HQ]. rewrite E.
  destruct (m w) as [w1 [a | e | ]]; simpl in *.
  - apply Hk; auto.
  - split; [reflexivity | intros; discriminate].
  - split; [reflexivity | intros; discriminate].
Qed.

Lemma commutes_try_except {A} (Q : A -> Prop) m (c : exn -> bool) h :
  commutes Q m -> commutes Q h -> commutes Q (try_except m c h).
Proof.
  intros Hm Hh w. unfold try_except, catch.
  destruct (Hm w) as [E HQ]. rewrite E.
  destruct (m w) as [w1 [a | e | ]]; simpl in *.
  - split; [reflexivity | exact HQ].
  - destruct (c e).
    + apply Hh.
    + split; [reflexivity | intros; discriminate].
  - split; [reflexivity | intros; discriminate].
Qed.

Lemma commutes_emit e : commutes whatever (emit e).
Proof.
  intros w. unfold emit. cbn [fst snd]. rewrite V_log.
  split; [reflexivity | intros; exact I].
Qed.

Lemma V_stat w p :
  PosixPath.isabs p = true ->
  stat (w_fs (V w)) (w_cwd (V w)) p = stat (w_fs w) (w_cwd w) p.
Proof. intros Hp. unfold stat. rewrite (V_lookup w true p Hp). reflexivity. Qed.

Lemma V_lstat w p :
  PosixPath.isabs p = true ->
  lstat (w_fs (V w)) (w_cwd (V w)) p = lstat (w_fs w) (w_cwd w) p.
Proof. intros Hp. unfold lstat. rewrite (V_lookup w false p Hp). reflexivity. Qed.

Lemma commutes_os_path_isdir p :
  PosixPath.isabs p = true -> commutes whatever (os_path_isdir p).
Proof.
  intros Hp w. rewrite !os_path_isdir_eq. unfold is_dir. cbn [fst snd].
  rewrite (V_stat w p Hp). split; [reflexivity | intros; exact I].
Qed.

Lemma commutes_os_path_isfile p :
  PosixPath.isabs p = true -> commutes whatever (os_path_isfile p).
Proof.
  intros Hp w. rewrite !os_path_isfile_eq. unfold is_file. cbn [fst snd].
  rewrite (V_stat w p Hp). split; [reflexivity | intros; exact I].
Qed.

Lemma commutes_os_path_islink p :
  PosixPath.isabs p = true -> commutes whatever (os_path_islink p).
Proof.
  intros Hp w. rewrite !os_path_islink_eq. unfold is_link. cbn [fst snd].
  rewrite (V_lstat w p Hp). split; [reflexivity | intros; exact I].
Qed.

Lemma commutes_open_rb p :
  PosixPath.isabs p = true -> commutes whatever (open_rb p).
Proof.
  intros Hp w. unfold open_rb. rewrite (V_stat w p Hp).
  destruct (stat _ _ _) as [[c m [|]|es l|t]|e]; cbn [fst snd];
    (split; [reflexivity | intros; exact I]).
Qed.

Lemma commutes_os_listdir p :
  PosixPath.isabs p = true -> commutes whatever (os_listdir p).
Proof.
  intros Hp w. unfold os_listdir. rewrite (V_stat w p Hp).
  destruct (stat _ _ _) as [[c m r|es [|]|t]|e]; cbn [fst snd];
    (split; [reflexivity | intros; exact I]).
Qed.

Variable conn : nat.

Lemma commutes_send_response r code hs :
  commutes whatever (send_response conn r code hs).
Proof.
  unfold send_response.
  eapply commutes_bind; [apply commutes_emit | intros _ _].
  destruct (has_headers r); [apply commutes_emit | apply (commutes_ret whatever), I].
Qed.

Lemma commutes_send_error r code msg explain :
  commutes whatever (send_error conn r code msg explain).
Proof.
  unfold send_error.
  eapply commutes_bind; [apply commutes_emit | intros _ _].
  eapply commutes_bind; [apply commutes_send_response | intros _ _].
  destruct (_ && _); [| apply commutes_ret; exact I].
  destruct (_ && _); [apply commutes_emit | apply commutes_ret; exact I].
Qed.

Lemma commutes_list_entries p names :
  PosixPath.isabs p = true -> commutes whatever (list_entries p names).
Proof.
  intros Hp. induction names as [| n ns IH]; simpl.
  - apply commutes_ret. exact I.
  - eapply commutes_bind;
      [apply commutes_os_path_isdir, join_isabs, Hp | intros isd _].
    eapply commutes_bind;
      [apply commutes_os_path_islink, join_isabs, Hp | intros isl _].
    eapply commutes_bind; [apply IH | intros items _].
    apply commutes_ret. exact I.
Qed.

Lemma commutes_list_directory r p :
  PosixPath.isabs p = true -> commutes whatever (list_directory conn r p).
Proof.
  intros Hp. unfold list_directory.
  eapply commutes_bind with (Q := whatever).
  - apply commutes_try_except.
    + eapply commutes_bind; [apply commutes_os_listdir; exact Hp | intros names _].
      apply commutes_ret. exact I.
    + eapply commutes_bind; [apply commutes_send_error | intros _ _].
      apply commutes_ret. exact I.
  - intros [names |] _; [| apply commutes_ret; exact I].
    eapply commutes_bind; [apply commutes_list_entries, Hp | intros items _].
    destruct (listing_page _ _ _); [| apply commutes_raise].
    eapply commutes_bind; [apply commutes_send_response | intros _ _].
    apply commutes_ret. exact I.
Qed.

Lemma commutes_send_file_head r p :
  PosixPath.isabs p = true -> commutes whatever (send_file_head conn r p).
Proof.
  intros Hp. unfold send_file_head.
  destruct (endswith _ p).
  - eapply commutes_bind; [apply commutes_send_error | intros _ _].
    apply commutes_ret. exact I.
  - eapply commutes_bind with (Q := whatever).
    + apply commutes_try_except.
      * eapply commutes_bind; [apply commutes_open_rb; exact Hp | intros f _].
        apply commutes_ret. exact I.
      * eapply commutes_bind; [apply commutes_send_error | intros _ _].
        apply commutes_ret. exact I.
    + intros [f |] _; [| apply commutes_ret; exact I].
      match goal with |- commutes _ (if ?b then _ else _) => destruct b end;
        (eapply commutes_bind; [apply commutes_send_response | intros _ _];
         apply commutes_ret; exact I).
Qed.

Lemma commutes_find_index p names :
  PosixPath.isabs p = true ->
  commutes (fun o => match o with
                     | Some i => PosixPath.isabs i = true
                     | None => True
                     end)
    (find_index p names).
Proof.
  intros Hp. induction names as [| n ns IH]; simpl.
  - apply commutes_ret. exact I.
  - eapply commutes_bind;
      [apply commutes_os_path_isfile, join_isabs, Hp | intros [|] _].
    + apply commutes_ret. apply join_isabs, Hp.
    + apply IH.
Qed.

Lemma commutes_send_head d r :
  PosixPath.isabs d = true -> commutes whatever (send_head d conn r).
Proof.
  intros Hd. unfold send_head.
  pose proof (translate_path_isabs d (path r) Hd) as Hp.
  apply (commutes_bind whatever); [apply commutes_os_path_isdir, Hp |].
  intros [|] _.
  - destruct (urlsplit_path _); [| apply commutes_raise].
    destruct (negb _).
    + apply (commutes_bind whatever); [apply commutes_send_response | intros _ _].
      apply (commutes_ret whatever), I.
    + eapply commutes_bind; [apply commutes_find_index, Hp | intros [i |] Hi].
      * apply commutes_send_file_head, Hi.
      * apply commutes_list_directory, Hp.
  - apply commutes_send_file_head, Hp.
Qed.

Lemma commutes_Handler d input w :
  PosixPath.isabs d = true ->
  Handler d conn input (V w)
  = (V (fst (Handler d conn input w)), snd (Handler d conn input w)).
Proof.
  intros Hd.
  assert (H : commutes whatever (handle_one_request d conn input)).
  { destruct input as [r | r code msg explain | | e]; simpl.
    - destruct (String.eqb _ "GET").
      + unfold do_GET.
        apply (commutes_bind whatever); [apply commutes_send_head, Hd |].
        intros [b |] _; [apply commutes_emit | apply (commutes_ret whatever), I].
      + destruct (String.eqb _ "HEAD").
        * unfold do_HEAD.
          apply (commutes_bind whatever); [apply commutes_send_head, Hd |].
          intros _ _. apply (commutes_ret whatever), I.
        * apply commutes_send_error.
    - apply commutes_send_error.
    - apply (commutes_ret whatever), I.
    - apply commutes_raise. }
  apply (H w).
Qed.

End Invariance.

Lemma lookup_absolute {L : TextLib} fs cwd1 cwd2 follow p :
  PosixPath.isabs p = true -> lookup fs cwd1 follow p = lookup fs cwd2 follow p.
Proof. intros Hp. unfold lookup. rewrite Hp. reflexivity. Qed.

Lemma stat_absolute {L : TextLib} fs cwd1 cwd2 p :
  PosixPath.isabs p = true -> stat fs cwd1 p = stat fs cwd2 p.
Proof.
  intros Hp. unfold stat. rewrite (lookup_absolute fs cwd1 cwd2 true p Hp).
  reflexivity.
Qed.

Lemma Handler_extends {L : TextLib} d conn input w :
  exists u r, Handler d conn input w = (extend u w, r).
Proof.
  destruct (Handler_writes d conn input w) as [u [r [E _]]]. eauto.
Qed.

Lemma same_filesystem_same_answer {L : TextLib} (d : string) conn input w1 w2 :
  PosixPath.isabs d = true ->
  w_fs w1 = w_fs w2 ->
  exists u r,
    Handler d conn input w1 = (extend u w1, r)
    /\ Handler d conn input w2 = (extend u w2, r).
Proof.
  intros Hd Hfs.
  pose (x := mkWorld (w_fs w1) [] false [] [] []).
  pose (V := fun (wi y : world) =>
               mkWorld (w_fs y) (w_cwd wi) (w_allow_reuse_address wi)
                 (w_bound wi) (w_time_wait wi) (w_trace wi ++ w_trace y)).
  assert (HV : forall wi, w_fs wi = w_fs w1 -> V wi x = wi).
  { intros wi E. unfold V, x. cbn [w_fs w_trace]. rewrite app_nil_r, <- E.
    destruct wi; reflexivity. }
  assert (Hcomm : forall wi,
            Handler d conn input (V wi x)
            = (V wi (fst (Handler d conn input x)), snd (Handler d conn input x))).
  { intros wi.
    apply (commutes_Handler (V wi)); [| | exact Hd].
    - intros e w. unfold V, log_event. cbn [w_fs w_trace]. rewrite app_assoc.
      reflexivity.
    - intros w follow p Hp. unfold V. cbn [w_fs w_cwd].
      apply lookup_absolute, Hp. }
  destruct (Handler_extends d conn input x) as [u [r E]].
  exists u, r.
  assert (Hext : forall wi, V wi (extend u x) = extend u (V wi x)).
  { intros wi. unfold V, extend. cbn [w_fs w_cwd w_allow_reuse_address w_bound
      w_time_wait w_trace]. rewrite app_assoc. reflexivity. }
  split.
  - rewrite <- (HV w1 eq_refl) at 1 2. rewrite Hcomm, E. cbn [fst snd].
    rewrite Hext. reflexivity.
  - rewrite <- (HV w2 (eq_sym Hfs)) at 1 2. rewrite Hcomm, E. cbn [fst snd].
    rewrite Hext. reflexivity.
Qed.

(** ** The accept loop, connection by connection *)

Lemma accepts_in_conn conn u :
  forallb (in_conn conn) u = true -> accepts u = [].
Proof.
  induction u as [| e u IH]; [reflexivity |].
  cbn [forallb]. intros H. apply andb_true_iff in H. destruct H as [He Hu].
  destruct e; simpl in He; try discriminate; simpl; auto.
Qed.

Lemma accepts_after_handler res : accepts (after_handler res) = [].
Proof. destruct res as [a | e |]; try reflexivity. simpl. destruct (is_Exception e); reflexivity. Qed.

(** One turn of the loop on an incoming connection: the accept, what the
    handler writes, a traceback if it raised an [Exception], the close;
    then the next turn, unless the handler was interrupted. *)
Lemma serve_forever_step {L : TextLib} d conn input rest w :
  exists u res,
    Handler d conn input (extend [EvAccept conn] w)
    = (extend u (extend [EvAccept conn] w), res)
    /\ forallb (in_conn conn) u = true
    /\ match input with
       | Fault e => u = [] /\ res = Raise e
       | _ => res = Ret tt \/ res = Raise ValueError
       end
    /\ serve_forever (the_server d) (Incoming conn input :: rest) w
       = let w1 := extend ([EvAccept conn] ++ u ++ after_handler res
                           ++ [EvCloseConn conn]) w in
         if is_interrupt (Incoming conn input)
         then (w1, Raise KeyboardInterrupt)
         else serve_forever (the_server d) rest w1.
Proof.
  destruct (Handler_writes d conn input (log_event (EvAccept conn) w))
    as [u [res [E [F Hr]]]].
  exists u, res. split; [exact E |]. split; [exact F |]. split; [exact Hr |].
  change (serve_forever (the_server d) (Incoming conn input :: rest))
    with (handle_request_noblock (the_server d) conn input ;;
          serve_forever (the_server d) rest).
  unfold bind. rewrite (handle_request_noblock_run d conn input w u res E).
  cbv zeta.
  destruct input as [q | q code msg explain | | e].
  - destruct Hr as [-> | ->]; reflexivity.
  - destruct Hr as [-> | ->]; reflexivity.
  - destruct Hr as [-> | ->]; reflexivity.
  - destruct Hr as [-> ->]. destruct e as [| oe |]; reflexivity.
Qed.

Lemma interrupted_app a b : interrupted (a ++ b) = interrupted a || interrupted b.
Proof. apply existsb_app. Qed.

Lemma connections_app pre rest :
  interrupted pre = false ->
  connections (pre ++ rest) = connections pre ++ connections rest.
Proof.
  induction pre as [| ev pre IH]; [reflexivity |].
  unfold interrupted. cbn [existsb]. intros H.
  apply orb_false_iff in H. destruct H as [Hev Hpre].
  destruct ev as [| conn input | |]; cbn [app connections]; try discriminate;
    try (apply IH; exact Hpre).
  destruct input as [q | q code msg explain | | e];
    try (cbn [app]; rewrite (IH Hpre); reflexivity).
  destruct e; try discriminate; cbn [app]; rewrite (IH Hpre); reflexivity.
Qed.

(** The turns before the interrupt. *)
Lemma serve_forever_cut {L : TextLib} d pre rest w :
  interrupted pre = false ->
  exists t1,
    serve_forever (the_server d) (pre ++ rest) w
    = serve_forever (the_server d) rest (extend t1 w)
    /\ accepts t1 = connections pre
    /\ forallb serving_event t1 = true
    /\ one_at_a_time None t1 = Some None.
Proof.
  revert w. induction pre as [| ev pre IH]; intros w Hi.
  - exists []. rewrite extend_nil. auto.
  - unfold interrupted in Hi. cbn [existsb] in Hi.
    apply orb_false_iff in Hi. destruct Hi as [Hev Hpre].
    destruct ev as [| conn input | |]; try discriminate.
    + cbn [app serve_forever connections]. apply IH, Hpre.
    + destruct (serve_forever_step d conn input (pre ++ rest) w)
        as [u [res [E [F [Hr Hs]]]]].
      cbn [app]. rewrite Hs. cbv zeta. rewrite Hev.
      destruct (IH (extend ([EvAccept conn] ++ u ++ after_handler res
                            ++ [EvCloseConn conn]) w) Hpre)
        as [t1 [E1 [A1 [S1 O1]]]].
      exists (([EvAccept conn] ++ u ++ after_handler res ++ [EvCloseConn conn]) ++ t1).
      rewrite E1, extend_extend. split; [reflexivity |].
      assert (Hmid : after_handler res = [] \/ after_handler res = [EvTraceback]).
      { destruct res as [a | e |]; auto. simpl. destruct (is_Exception e); auto. }
      destruct (in_conn_one_at_a_time conn u F) as [Au Su].
      split; [| split].
      * rewrite !accepts_app, (accepts_in_conn conn u F), accepts_after_handler, A1.
        cbn [accepts app].
        destruct input as [q | q code msg explain | | e]; try reflexivity.
        destruct e; try reflexivity. discriminate.
      * rewrite forallb_app, S1, andb_true_r.
        cbn [app forallb serving_event andb]. rewrite !forallb_app, Su.
        destruct Hmid as [-> | ->]; reflexivity.
      * rewrite one_at_a_time_app.
        cbn [app one_at_a_time one_at_a_time_step].
        rewrite one_at_a_time_app, Au.
        destruct Hmid as [-> | ->]; simpl; rewrite Nat.eqb_refl; exact O1.
    + cbn [app serve_forever connections]. apply IH, Hpre.
Qed.

(** The loop accepts every connection that arrives, in order, up to the
    interrupt. *)
Lemma serve_forever_accepts {L : TextLib} d events w :
  exists t,
    fst (serve_forever (the_server d) events w) = extend t w
    /\ accepts t = connections events.
Proof.
  revert w. induction events as [| ev rest IH]; intros w.
  - exists []. rewrite extend_nil. auto.
  - destruct ev as [| conn input | |].
    + cbn [serve_forever connections]. apply IH.
    + destruct (serve_forever_step d conn input rest w)
        as [u [res [E [F [Hr Hs]]]]].
      rewrite Hs. cbv zeta.
      assert (Hacc : accepts ([EvAccept conn] ++ u ++ after_handler res
                              ++ [EvCloseConn conn]) = [conn]).
      { rewrite !accepts_app, (accepts_in_conn conn u F), accepts_after_handler.
        reflexivity. }
      destruct (is_interrupt (Incoming conn input)) eqn:Hi.
      * eexists. split; [reflexivity |]. rewrite Hacc.
        destruct input as [q | q code msg explain | | e]; try discriminate.
        destruct e; try discriminate. reflexivity.
      * destruct (IH (extend ([EvAccept conn] ++ u ++ after_handler res
                              ++ [EvCloseConn conn]) w)) as [t [Et At]].
        eexists. rewrite Et, extend_extend. split; [reflexivity |].
        rewrite accepts_app, Hacc, At.
        destruct input as [q | q code msg explain | | e]; try reflexivity.
        destruct e; try reflexivity. discriminate.
    + cbn [serve_forever connections]. apply IH.
    + exists []. cbn [serve_forever raise fst connections].
      rewrite extend_nil. auto.
Qed.

(** Each connection is handed to the handler of the script: between its
    accept and its close the trace holds what the handler writes, which
    is what it writes in any world with this filesystem. *)
Lemma serve_forever_dispatch {L : TextLib} d pre conn input post w :
  PosixPath.isabs d = true ->
  interrupted pre = false ->
  exists t1 u res t2,
    fst (serve_forever (the_server d) (pre ++ Incoming conn input :: post) w)
    = extend (t1 ++ [EvAccept conn] ++ u ++ after_handler res
              ++ [EvCloseConn conn] ++ t2) w
    /\ accepts t1 = connections pre
    /\ forall w', w_fs w' = w_fs w ->
         Handler d conn input w' = (extend u w', res).
Proof.
  intros Hd Hpre.
  destruct (serve_forever_cut d pre (Incoming conn input :: post) w Hpre)
    as [t1 [E1 [A1 _]]].
  rewrite E1.
  destruct (serve_forever_step d conn input post (extend t1 w))
    as [u [res [E [F [Hr Hs]]]]].
  rewrite Hs. cbv zeta.
  assert (Hany : forall w', w_fs w' = w_fs w ->
            Handler d conn input w' = (extend u w', res)).
  { intros w' Hfs.
    destruct (same_filesystem_same_answer d conn input
                (extend [EvAccept conn] (extend t1 w)) w' Hd)
      as [u' [r' [Ea Eb]]]; [symmetry; exact Hfs |].
    rewrite E in Ea. injection Ea as Eu Er. apply app_inv_head in Eu.
    subst u' r'. exact Eb. }
  destruct (is_interrupt (Incoming conn input)).
  - exists t1, u, res, []. cbn [fst]. rewrite extend_extend, app_nil_r.
    rewrite <- ?app_assoc. auto.
  - destruct (serve_forever_extends d post
                (extend ([EvAccept conn] ++ u ++ after_handler res
                         ++ [EvCloseConn conn]) (extend t1 w)))
      as [t2 [E2 _]].
    exists t1, u, res, t2. rewrite E2, !extend_extend.
    rewrite <- ?app_assoc. auto.
Qed.

(** ** The handler on a parsed request *)








Lemma with_page_404 : with_page HTTP_NOT_FOUND = true.
Proof. reflexivity. Qed.


(** [open] fails with an [OSError], or the path ends with a slash: 404. *)
Lemma send_file_head_fails {L : TextLib} w conn r (p : string) :
  endswith "/" p = true \/ open_fails (w_fs w) (w_cwd w) p = true ->
  send_file_head conn r p w
  = (extend (error_response conn r HTTP_NOT_FOUND "File not found" None) w,
     Ret None).
Proof.
  intros Hf. unfold send_file_head.
  destruct (endswith "/" p).
  - unfold bind. rewrite (send_error_run _ _ _ _ _ _ with_page_404). reflexivity.
  - destruct Hf as [Hf | Hf]; [discriminate |].
    unfold bind, try_except, catch, open_rb. unfold open_fails in Hf.
    destruct (stat _ _ p) as [[c m [|] | es l | t] | [| oe |]]; try discriminate;
      cbn [is_OSError]; rewrite (send_error_run _ _ _ _ _ _ with_page_404);
      reflexivity.
Qed.


Lemma not_dir_of_open_fails {L : TextLib} fs cwd p :
  open_fails fs cwd p = true -> is_dir fs cwd p = false.
Proof.
  unfold open_fails, is_dir.
  destruct (stat fs cwd p) as [[c m r | es l | t] | e];
    (discriminate || reflexivity).
Qed.

Lemma not_file_of_open_fails {L : TextLib} w conn r p :
  open_fails (w_fs w) (w_cwd w) p = true ->
  is_file (w_fs w) (w_cwd w) p = false
  \/ send_file_head conn r p w
     = (extend (error_response conn r HTTP_NOT_FOUND "File not found" None) w,
        Ret None).
Proof. intros H. right. apply send_file_head_fails. auto. Qed.


(** The entries of a listing. *)
Lemma list_entries_items {L : TextLib} (p : string) names w :
  list_entries p names w
  = (w, Ret (map (listing_item (w_fs w) (w_cwd w) p) names)).
Proof.
  induction names as [| n ns IH]; [reflexivity |].
  cbn [list_entries map]. unfold bind.
  rewrite os_path_isdir_eq, os_path_islink_eq, IH. unfold listing_item.
  reflexivity.
Qed.

(** A directory that may be listed. *)
Lemma list_directory_ok {L : TextLib} w conn r p es page :
  stat (w_fs w) (w_cwd w) p = inl (Directory es true) ->
  listing_page (path r) p
    (map (listing_item (w_fs w) (w_cwd w) p)
       (sort_by_lower (filter simple_name es))) = Some page ->
  list_directory conn r p w
  = (extend (response_head conn r HTTP_OK
               [("Content-type", "text/html; charset=" ++ filesystem_encoding);
                ("Content-Length", str (String.length page))]%string) w,
     Ret (Some page)).
Proof.
  intros Hs Hpage. unfold list_directory. unfold bind at 1.
  unfold try_except, catch, bind at 1, os_listdir. rewrite Hs.
  cbn [ret]. unfold bind at 1. rewrite list_entries_items, Hpage.
  unfold bind. rewrite send_response_run. reflexivity.
Qed.

Lemma list_directory_unencodable {L : TextLib} w conn r p es :
  stat (w_fs w) (w_cwd w) p = inl (Directory es true) ->
  listing_page (path r) p
    (map (listing_item (w_fs w) (w_cwd w) p)
       (sort_by_lower (filter simple_name es))) = None ->
  list_directory conn r p w = (w, Raise ValueError).
Proof.
  intros Hs Hpage. unfold list_directory. unfold bind at 1.
  unfold try_except, catch, bind at 1, os_listdir. rewrite Hs.
  cbn [ret]. unfold bind at 1. rewrite list_entries_items, Hpage.
  reflexivity.
Qed.

(** * The claims *)

(** C4. On start the base directory is the directory that holds the
    script; the script changes into it, binds a socket to [("", 8000)]
    with [SO_REUSEADDR] set, listens, prints exactly two lines (the URL
    and the stop instruction) and enters the accept loop.  The loop
    accepts every connection that arrives, in order, and hands each to
    the handler of the script: between the accept and the close of a
    connection the trace holds what the handler writes for its input.
    The script stays blocked in the loop as long as no interrupt arrives.
    The base directory must exist and the port must not be bound by
    another socket. *)
Theorem start_binds_prints_and_serves {L : TextLib} w file events es l :
  let d := DIRECTORY (getcwd w) file in
  forallb simple_name (w_cwd w) = true ->
  stat (w_fs w) (w_cwd w) d = inl (Directory es l) ->
  existsb (Z.eqb PORT) (w_bound w) = false ->
  resolve (w_cwd w) d = removelast (resolve (w_cwd w) file)
  /\ exists t,
       w_trace (fst (module_body "__main__" file events w))
       = w_trace w
         ++ [EvChdir d; EvSocket; EvSetReuseAddr;
             EvBind EmptyString 8000 true; EvListen 5;
             EvPrint "Serving chat app at http://localhost:8000";
             EvPrint "Press Ctrl+C to stop"]
         ++ t
       /\ accepts t = connections events
       /\ (forall pre conn input post,
             events = pre ++ Incoming conn input :: post ->
             interrupted pre = false ->
             exists t1 u res t2,
               t = t1 ++ [EvAccept conn] ++ u ++ after_handler res
                   ++ [EvCloseConn conn] ++ t2
               /\ accepts t1 = connections pre
               /\ forall w', w_fs w' = w_fs w ->
                    Handler d conn input w' = (extend u w', res))
       /\ (interrupted events = false ->
           snd (module_body "__main__" file events w) = Block
           /\ existsb (Z.eqb 8000) (w_bound (fst (module_body "__main__" file events w)))
              = true
           /\ prints t = []).
Proof.
  intros d Hcwd Hdir Hport.
  split; [apply DIRECTORY_parent, Hcwd |].
  destruct (module_body_main w file events es l Hdir Hport)
    as [t [Et [Ft [At E]]]].
  fold d in E, Et.
  set (ws := mkWorld (w_fs w) (real_key (w_fs w) (w_cwd w) d) true
               (PORT :: w_bound w) (w_time_wait w)
               (w_trace w ++ startup_events d)) in *.
  assert (Hacc : accepts t = connections events).
  { destruct (serve_forever_accepts d events ws) as [t' [Et' At']].
    rewrite Et in Et'. apply extend_inj in Et'. subst t'. exact At'. }
  assert (Hdis : forall pre conn input post,
            events = pre ++ Incoming conn input :: post ->
            interrupted pre = false ->
            exists t1 u res t2,
              t = t1 ++ [EvAccept conn] ++ u ++ after_handler res
                  ++ [EvCloseConn conn] ++ t2
              /\ accepts t1 = connections pre
              /\ forall w', w_fs w' = w_fs w ->
                   Handler d conn input w' = (extend u w', res)).
  { intros pre conn input post Hev Hpre.
    destruct (serve_forever_dispatch d pre conn input post ws
                (DIRECTORY_isabs _ _ (getcwd_isabs w)) Hpre)
      as [t1 [u [res [t2 [E2 [A2 H2]]]]]].
    rewrite <- Hev, Et in E2. apply extend_inj in E2.
    exists t1, u, res, t2. auto. }
  rewrite E.
  destruct (interrupted events).
  - exists (t ++ shutdown_events). split; [reflexivity |].
    split; [rewrite accepts_app, Hacc; apply app_nil_r |].
    split; [| discriminate].
    intros pre conn input post Hev Hpre.
    destruct (Hdis pre conn input post Hev Hpre)
      as [t1 [u [res [t2 [E2 [A2 H2]]]]]].
    exists t1, u, res, (t2 ++ shutdown_events).
    split; [rewrite E2, <- !app_assoc; reflexivity | auto].
  - exists t. split; [reflexivity |]. split; [exact Hacc |].
    split; [exact Hdis |]. intros _.
    split; [reflexivity |]. split.
    + simpl. reflexivity.
    + apply (serving_events_silent t Ft).
Qed.

(** C5. An interrupt, while the script waits or while it handles a
    request, leaves the accept loop: the script prints one line, closes
    the listening socket and ends with exit status 0.  No run ends with
    status 0 in any other way. *)
Theorem interrupt_stops_cleanly {L : TextLib} w file events es l :
  let d := DIRECTORY (getcwd w) file in
  stat (w_fs w) (w_cwd w) d = inl (Directory es l) ->
  existsb (Z.eqb PORT) (w_bound w) = false ->
  (interrupted events = true ->
   exists t tw,
     forallb serving_event t = true
     /\ run_script file events w
        = (mkWorld (w_fs w) (real_key (w_fs w) (w_cwd w) d) true (w_bound w) tw
             (w_trace w ++ startup_events d ++ t
              ++ [EvPrint (newline ++ "Server stopped."); EvCloseListening]),
           Some 0%Z))
  /\ (forall w0 events0,
        snd (run_script file events0 w0) = Some 0%Z ->
        interrupted events0 = true).
Proof.
  intros d Hdir Hport. split.
  - intros Hi.
    destruct (module_body_main w file events es l Hdir Hport)
      as [t [_ [Ft [At E]]]].
    fold d in E. rewrite Hi in E.
    exists t, (w_time_wait w). split; [exact Ft |].
    unfold run_script. rewrite E. reflexivity.
  - intros w0 events0 H0. unfold run_script in H0.
    destruct (stat (w_fs w0) (w_cwd w0) (DIRECTORY (getcwd w0) file))
      as [[c m r | es0 l0 | t0] | e] eqn:Hs.
    + destruct (module_body_chdir_fails w0 file events0) as [e' [He' E]].
      { intros es0 l0. rewrite Hs. discriminate. }
      rewrite E in H0. destruct e'; simpl in *; discriminate.
    + destruct (existsb (Z.eqb PORT) (w_bound w0)) eqn:Hp.
      * rewrite (module_body_bind_fails w0 file events0 es0 l0 Hs Hp) in H0.
        simpl in H0. discriminate.
      * destruct (module_body_main w0 file events0 es0 l0 Hs Hp)
          as [t [_ [_ [_ E]]]].
        rewrite E in H0. destruct (interrupted events0); [reflexivity |].
        simpl in H0. discriminate.
    + destruct (module_body_chdir_fails w0 file events0) as [e' [He' E]].
      { intros es0 l0. rewrite Hs. discriminate. }
      rewrite E in H0. destruct e'; simpl in *; discriminate.
    + destruct (module_body_chdir_fails w0 file events0) as [e' [He' E]].
      { intros es0 l0. rewrite Hs. discriminate. }
      rewrite E in H0. destruct e'; simpl in *; discriminate.
Qed.

(** C6. When the port is already bound by another socket the bind fails
    and start-up aborts: one attempt to bind, no retry, nothing printed
    on stdout, the error leaves the script with a traceback and the exit
    status is 1. *)
Theorem bind_failure_is_fatal {L : TextLib} w file events es l :
  let d := DIRECTORY (getcwd w) file in
  stat (w_fs w) (w_cwd w) d = inl (Directory es l) ->
  existsb (Z.eqb PORT) (w_bound w) = true ->
  exists t,
    run_script file events w
    = (mkWorld (w_fs w) (real_key (w_fs w) (w_cwd w) d) true (w_bound w)
         (w_time_wait w) (w_trace w ++ t),
       Some 1%Z)
    /\ t = [EvChdir d; EvSocket; EvSetReuseAddr;
            EvBind EmptyString 8000 false; EvCloseListening; EvTraceback]
    /\ binds t = [(EmptyString, 8000%Z, false)]
    /\ prints t = [].
Proof.
  intros d Hdir Hport. eexists. split; [| split; [reflexivity |]].
  - unfold run_script.
    rewrite (module_body_bind_fails w file events es l Hdir Hport).
    fold d. unfold log_event.
    cbn [w_allow_reuse_address w_bound w_time_wait w_fs w_cwd w_trace].
    rewrite <- app_assoc. reflexivity.
  - split; reflexivity.
Qed.

(** C7. The [with] block closes the listening socket however its body
    ends, by a return or by any exception: the close is the last thing
    done and the port is no longer bound.  In the script the body is left
    by the interrupt only; then the socket has been closed exactly once,
    port 8000 is free of the script's socket, and a new server can bind
    it at once, TIME_WAIT or not, because address reuse is on. *)
Theorem listening_socket_is_released {L : TextLib} w file events es l :
  let d := DIRECTORY (getcwd w) file in
  stat (w_fs w) (w_cwd w) d = inl (Directory es l) ->
  existsb (Z.eqb PORT) (w_bound w) = false ->
  (forall (A : Type) (body : M A) (w1 : world),
     snd (body w1) <> Block ->
     let w2 := fst (try_finally body (server_close (the_server d)) w1) in
     w_trace w2 = w_trace (fst (body w1)) ++ [EvCloseListening]
     /\ w_bound w2 = remove Z.eq_dec PORT (w_bound (fst (body w1)))
     /\ snd (try_finally body (server_close (the_server d)) w1) = snd (body w1))
  /\ (snd (module_body "__main__" file events w) <> Block ->
      let w' := fst (module_body "__main__" file events w) in
      existsb (Z.eqb PORT) (w_bound w') = false
      /\ (exists t,
            w_trace w' = w_trace w ++ t ++ [EvCloseListening]
            /\ closes t = 0)
      /\ forall handler,
           exists srv w'',
             TCPServer (EmptyString, PORT) handler w' = (w'', Ret srv)
             /\ existsb (Z.eqb PORT) (w_bound w'') = true).
Proof.
  intros d Hdir Hport. split.
  - intros A body w1 Hb. unfold try_finally.
    destruct (body w1) as [w2 [a | e |]]; cbn [fst snd] in *;
      [| | congruence];
      unfold server_close, socket_close, the_server, bind, emit, modify, ret,
        raise, log_event, set_bound;
      cbn [sock_port fst snd w_trace w_bound]; auto.
  - destruct (module_body_main w file events es l Hdir Hport)
      as [t [_ [Ft [At E]]]].
    fold d in E. rewrite E.
    destruct (interrupted events); [| intros H; exfalso; apply H; reflexivity].
    intros _. cbn [fst snd w_bound w_trace]. split; [exact Hport |]. split.
    + exists (startup_events d ++ t ++ [EvPrint (newline ++ "Server stopped.")]).
      split.
      * unfold shutdown_events. rewrite <- !app_assoc. reflexivity.
      * rewrite !closes_app. destruct (serving_events_silent t Ft) as [_ [_ ->]].
        reflexivity.
    + intros handler. unfold TCPServer, server_bind, server_activate,
        socket_bind, bind, catch, emit, get, ret.
      cbn [w_allow_reuse_address log_event w_bound w_time_wait snd fst].
      rewrite Hport. cbn [negb orb]. rewrite andb_false_r.
      eexists. eexists. split; [reflexivity |].
      cbn [w_bound log_event set_bound existsb]. rewrite Z.eqb_refl. reflexivity.
Qed.

(** C8. The accept loop handles one connection at a time: in every trace
    the loop writes, an accepted connection is answered and closed before
    the next one is accepted, and every event of a handler belongs to the
    one connection that is open.  The loop writes nothing but such
    serving events: it starts no worker. *)
Theorem one_connection_at_a_time {L : TextLib} d events w :
  exists t tw,
    fst (serve_forever (the_server d) events w)
    = set_time_wait tw (extend t w)
    /\ one_at_a_time None t = Some None
    /\ forallb serving_event t = true.
Proof.
  destruct (serve_forever_served d events w) as [[t [tw [E [F A]]]] _].
  exists t, tw. auto.
Qed.

(** C9. Serving never writes to the filesystem: a handler changes
    nothing of the world but the trace, to which it adds events of its
    own connection, and after any number of turns of the accept loop the
    filesystem is what it was. *)
Theorem serving_leaves_the_filesystem {L : TextLib} d :
  (forall conn input w,
     exists t, fst (Handler d conn input w) = extend t w
               /\ forallb (in_conn conn) t = true)
  /\ (forall events w,
        w_fs (fst (serve_forever (the_server d) events w)) = w_fs w).
Proof.
  split.
  - intros conn input w.
    destruct (Handler_writes d conn input w) as [t [r [E [F _]]]].
    exists t. rewrite E. auto.
  - intros events w.
    destruct (serve_forever_extends d events w) as [t [E _]].
    rewrite E. reflexivity.
Qed.

(** C10. Executing the module sets [TCPServer.allow_reuse_address] for
    the whole process, also when the module is only imported: then that
    is all it does, and every server constructed afterwards sets
    [SO_REUSEADDR] before it binds.  Run as a script, it also changes the
    working directory to the base directory, before the socket is
    bound. *)
Theorem import_and_start_side_effects {L : TextLib} w file events :
  (forall name, String.eqb name "__main__" = false ->
     module_body name file events w = (set_allow_reuse_address true w, Ret tt))
  /\ (forall address handler w1,
        w_allow_reuse_address w1 = true ->
        exists ok t,
          w_trace (fst (TCPServer address handler w1))
          = w_trace w1
            ++ [EvSocket; EvSetReuseAddr; EvBind (fst address) (snd address) ok]
            ++ t)
  /\ (forall es l,
        let d := DIRECTORY (getcwd w) file in
        stat (w_fs w) (w_cwd w) d = inl (Directory es l) ->
        existsb (Z.eqb PORT) (w_bound w) = false ->
        let w' := fst (module_body "__main__" file events w) in
        w_cwd w' = real_key (w_fs w) (w_cwd w) d
        /\ w_allow_reuse_address w' = true
        /\ exists t,
             w_trace w'
             = w_trace w
               ++ [EvChdir d; EvSocket; EvSetReuseAddr;
                   EvBind EmptyString 8000 true]
               ++ t).
Proof.
  split; [| split].
  - intros name Hn. unfold module_body, bind, os_getcwd, get, modify.
    rewrite Hn. reflexivity.
  - intros address handler w1 Hr.
    unfold TCPServer, server_bind, server_activate, socket_bind, bind, catch,
      emit, get, ret.
    cbn [w_allow_reuse_address log_event w_bound w_time_wait snd fst].
    rewrite Hr.
    cbn [w_allow_reuse_address log_event w_bound w_time_wait snd fst].
    destruct (existsb _ _ || _).
    + exists false, [EvCloseListening]. unfold socket_close, bind, emit, ret, raise.
      cbn [fst snd w_trace log_event]. rewrite <- !app_assoc. reflexivity.
    + exists true, [EvListen request_queue_size].
      cbn [fst snd w_trace log_event set_bound]. rewrite <- !app_assoc. reflexivity.
  - intros es l d Hdir Hport.
    destruct (module_body_main w file events es l Hdir Hport)
      as [t [_ [Ft [At E]]]].
    fold d in E. rewrite E.
    destruct (interrupted events); cbn [fst w_cwd w_allow_reuse_address w_trace];
      (split; [reflexivity |]; split; [reflexivity |]).
    + eexists. unfold startup_events. cbn [app]. reflexivity.
    + eexists. unfold startup_events. cbn [app]. reflexivity.
Qed.




(** * The claims on the small installation *)

Import Scenario.

Example normpath_collapses : PosixPath.normpath "/a/./b/../../c//d" = "/c/d"%string.
Proof. reflexivity. Qed.

Example normpath_keeps_two_slashes : PosixPath.normpath "//a/.." = "//"%string.
Proof. reflexivity. Qed.

Example normpath_relative : PosixPath.normpath "../a/../.." = "../.."%string.
Proof. reflexivity. Qed.

Example dirname_of_script :
  PosixPath.dirname "/srv/chat/web/serve.py" = "/srv/chat/web"%string.
Proof. reflexivity. Qed.

Example dirname_at_root : PosixPath.dirname "/serve.py" = "/"%string.
Proof. reflexivity. Qed.

Example split_keeps_empty_words :
  split "/" "/a//b/" = [""; "a"; ""; "b"; ""]%string.
Proof. reflexivity. Qed.

Example sort_is_case_blind :
  sort_by_lower ["b"; "C"; "a"; "B"]%string = ["a"; "b"; "B"; "C"]%string.
Proof. reflexivity. Qed.

Example base_of_script : DIRECTORY (getcwd w0) script = base.
Proof. reflexivity. Qed.

Example traversal_is_cut :
  translate_path base "/../../etc/passwd" = "/srv/chat/web/etc/passwd"%string
  /\ translate_path base "/%2e%2e/%2e%2e/etc/passwd?x=1"
     = "/srv/chat/web/etc/passwd"%string
  /\ translate_path base "/docs/../index.html#top"
     = "/srv/chat/web/index.html"%string.
Proof. repeat split; reflexivity. Qed.

(** The walk follows links, [lstat] does not follow the last one, and a
    link that leads to itself ends the walk with [ELOOP]. *)
Example links_are_followed :
  stat (fs_of files_linked) [] "/srv/chat/web/docs/users"
  = inl (RegFile "root:x:0:0" 500 true)
  /\ lstat (fs_of files_linked) [] "/srv/chat/web/docs/users"
     = inl (Symlink "/etc/passwd")
  /\ real_key (fs_of files_linked) [] "/srv/chat/web/docs/up/docs/up"
     = ["srv"; "chat"; "web"]%string
  /\ stat (fs_of files_linked) [] "/srv/chat/web/docs/users/"
     = inr (OSError ENOTDIR)
  /\ stat (fs_of [([], Directory ["a"] true); (["a"], Symlink "a")]%string) [] "/a"
     = inr (OSError ELOOP).
Proof. repeat split; reflexivity. Qed.

(** The automaton refuses a second accept while a connection is open, and
    a response on a connection that is not the open one. *)
Example overlap_is_refused :
  one_at_a_time None [EvAccept 1; EvAccept 2; EvCloseConn 1; EvCloseConn 2] = None
  /\ one_at_a_time None [EvAccept 1; EvSendBody 2 "x"; EvCloseConn 1] = None
  /\ one_at_a_time None [EvAccept 1; EvSendBody 1 "x"; EvCloseConn 1; EvAccept 2]
     = Some (Some 2).
Proof. repeat split; reflexivity. Qed.

(** The spec's scenario: [index.html] holds [<h1>hi</h1>]. *)
Example index_page_scenario :
  w_trace (fst (Handler base 7 (Request (GET "/index.html")) w0))
  = [EvLogRequest 7 200;
     EvSendHead 7 200
       (std_headers
        ++ [("Content-type", "text/html"); ("Content-Length", "11");
            ("Last-Modified", "1000")]%string);
     EvSendBody 7 "<h1>hi</h1>"].
Proof. reflexivity. Qed.

(** The same request without HTTP version: the body alone. *)
Example index_page_http09 :
  Handler base 7 (Request (GET09 "/index.html")) w0
  = (extend [EvLogRequest 7 200; EvSendBody 7 "<h1>hi</h1>"] w0, Ret tt).
Proof. reflexivity. Qed.

(** A NUL in the path: [open] raises [ValueError] and the loop goes on
    after a traceback. *)
Example nul_in_path :
  Handler base 7 (Request (GET "/%00")) w0 = (w0, Raise ValueError)
  /\ w_trace (fst (serve_forever (the_server base)
                     [Incoming 7 (Request (GET "/%00"));
                      Incoming 8 (Request (HEAD "/index.html"))] w0))
     = [EvAccept 7; EvTraceback; EvCloseConn 7;
        EvAccept 8; EvLogRequest 8 200;
        EvSendHead 8 200
          (std_headers
           ++ [("Content-type", "text/html"); ("Content-Length", "11");
               ("Last-Modified", "1000")]%string);
        EvCloseConn 8].
Proof. split; reflexivity. Qed.

Lemma start_binds_prints_and_serves_witness :
  resolve (w_cwd w0) base = ["srv"; "chat"; "web"]%string
  /\ snd (module_body "__main__" script two_events w0) = Block
  /\ prints (w_trace (fst (module_body "__main__" script two_events w0)))
     = ["Serving chat app at http://localhost:8000"; "Press Ctrl+C to stop"]%string
  /\ accepts (w_trace (fst (module_body "__main__" script two_events w0))) = [1].
Proof.
  pose proof (start_binds_prints_and_serves (L := plain) w0 script two_events
                base_entries true eq_refl eq_refl eq_refl)
    as [Hd [t [Ht [Hacc [_ Hb]]]]].
  destruct (Hb eq_refl) as [Hblock [_ Hp]].
  split; [reflexivity |]. split; [exact Hblock |].
  rewrite Ht. split.
  - rewrite !prints_app, Hp. reflexivity.
  - rewrite !accepts_app, Hacc. reflexivity.
Defined.

Lemma interrupt_stops_cleanly_witness :
  snd (run_script script then_interrupt w0) = Some 0%Z
  /\ interrupted then_interrupt = true.
Proof.
  pose proof (interrupt_stops_cleanly (L := plain) w0 script then_interrupt
                base_entries true eq_refl eq_refl) as [H1 H2].
  destruct (H1 eq_refl) as [t [tw [_ E]]].
  split; [rewrite E; reflexivity | reflexivity].
Defined.

Lemma bind_failure_is_fatal_witness :
  snd (run_script script two_events w_busy) = Some 1%Z
  /\ prints (w_trace (fst (run_script script two_events w_busy))) = [].
Proof.
  destruct (bind_failure_is_fatal (L := plain) w_busy script two_events
              base_entries true eq_refl eq_refl) as [t [E [Et [_ Hp]]]].
  rewrite E. split; [reflexivity |]. cbn [fst w_trace w_busy app]. exact Hp.
Defined.

Lemma listening_socket_is_released_witness :
  existsb (Z.eqb PORT)
    (w_bound (fst (module_body "__main__" script then_interrupt w0))) = false
  /\ closes (w_trace (fst (module_body "__main__" script then_interrupt w0))) = 1.
Proof.
  destruct (listening_socket_is_released (L := plain) w0 script then_interrupt
              base_entries true eq_refl eq_refl) as [_ H].
  assert (Hnb : snd (module_body "__main__" script then_interrupt w0) <> Block)
    by (vm_compute; discriminate).
  destruct (H Hnb) as [Hfree [[t [Ht Hc]] _]].
  split; [exact Hfree |].
  rewrite Ht, !closes_app, Hc. reflexivity.
Defined.

Lemma import_and_start_side_effects_witness :
  module_body "serve" script two_events w0
  = (set_allow_reuse_address true w0, Ret tt)
  /\ w_cwd (fst (module_body "__main__" script two_events w0))
     = ["srv"; "chat"; "web"]%string.
Proof.
  destruct (import_and_start_side_effects (L := plain) w0 script two_events)
    as [Himport [_ Hmain]].
  split; [apply Himport; reflexivity |].
  destruct (Hmain base_entries true eq_refl eq_refl) as [Hcwd _].
  rewrite Hcwd. reflexivity.
Defined.



(** C1, as the spec states it, fails: [docs/users] is a symbolic link to
    [/etc/passwd]; the request path has no traversal segment and is
    translated to a path below the base directory, and the answer is the
    content of [/etc/passwd], a file outside the base directory. *)
Lemma symlink_leaves_base_counterexample :
  resolve [] base = ["srv"; "chat"; "web"]%string
  /\ translate_path base "/docs/users" = "/srv/chat/web/docs/users"%string
  /\ w_fs w_linked ["srv"; "chat"; "web"; "docs"; "users"]%string
     = Some (Symlink "/etc/passwd")
  /\ w_fs w_linked ["etc"; "passwd"]%string
     = Some (RegFile "root:x:0:0" 500 true)
  /\ statuses 1 (w_trace (fst (Handler base 1 (Request (GET "/docs/users")) w_linked)))
     = [200%Z]
  /\ body 1 (w_trace (fst (Handler base 1 (Request (GET "/docs/users")) w_linked)))
     = "root:x:0:0"%string.
Proof. vm_compute. repeat split. Qed.





(** * Further properties of the script and its handler *)

(** ** The accept loop *)

Lemma serve_forever_stops_at_interrupt {L : TextLib} d pre ev rest w :
  is_interrupt ev = true ->
  serve_forever (the_server d) (pre ++ ev :: rest) w
  = serve_forever (the_server d) (pre ++ [ev]) w.
Proof.
  intros Hev. revert w. induction pre as [| a pre IH]; intros w.
  - cbn [app]. destruct ev as [| conn input | |]; try discriminate.
    + destruct (serve_forever_step d conn input rest w) as [u [res [E [_ [_ ->]]]]].
      destruct (serve_forever_step d conn input [] w) as [u' [res' [E' [_ [_ ->]]]]].
      rewrite E in E'. injection E' as Eu <-. apply app_inv_head in Eu. subst u'.
      cbv zeta. rewrite Hev. reflexivity.
    + reflexivity.
  - cbn [app]. destruct a as [| conn input | |]; cbn [serve_forever]; auto.
    unfold bind.
    destruct (handle_request_noblock (the_server d) conn input w)
      as [w1 [[] | e |]]; auto.
Qed.

(** X1. Whatever the clients send, resets included, the accept loop does
    not return and raises nothing of its own: it is left by
    [KeyboardInterrupt] when an interrupt arrives, and is blocked waiting
    otherwise. *)
Theorem accept_loop_ends_on_interrupt_only {L : TextLib} d events w :
  snd (serve_forever (the_server d) events w)
  = if interrupted events then Raise KeyboardInterrupt else Block.
Proof. apply serve_forever_served. Qed.


(** X3. Nothing that arrives after the interrupt is served: the loop's
    outcome and the world it leaves do not depend on the events that
    follow the first interrupt. *)
Theorem nothing_is_served_after_interrupt {L : TextLib} d pre ev rest w :
  is_interrupt ev = true ->
  serve_forever (the_server d) (pre ++ ev :: rest) w
  = serve_forever (the_server d) (pre ++ [ev]) w
  /\ snd (serve_forever (the_server d) (pre ++ ev :: rest) w)
     = Raise KeyboardInterrupt.
Proof.
  intros Hev. split; [apply serve_forever_stops_at_interrupt, Hev |].
  destruct (serve_forever_served d (pre ++ ev :: rest) w) as [_ ->].
  unfold interrupted. rewrite existsb_app. cbn [existsb]. rewrite Hev.
  rewrite orb_true_r. reflexivity.
Qed.

Lemma nothing_is_served_after_interrupt_witness :
  serve_forever (the_server base)
    ([Incoming 1 (Request (GET "/index.html"))] ++ Interrupt
     :: [Incoming 2 (Request (GET "/index.html"))]) w0
  = serve_forever (the_server base)
      ([Incoming 1 (Request (GET "/index.html"))] ++ [Interrupt]) w0.
Proof.
  apply (nothing_is_served_after_interrupt (L := plain) base
           [Incoming 1 (Request (GET "/index.html"))] Interrupt
           [Incoming 2 (Request (GET "/index.html"))] w0 eq_refl).
Defined.

(** ** Methods, redirects and the translated path *)





Lemma split1_head_app_no_sep c (p s : string) :
  contains c p = false ->
  split1_head c (p ++ s) = (p ++ split1_head c s)%string.
Proof.
  intros H. induction p as [| a p IH]; [reflexivity |].
  simpl in H. apply orb_false_iff in H. destruct H as [Ha Hp].
  cbn [String.append split1_head]. rewrite Ha, (IH Hp). reflexivity.
Qed.

Lemma split1_head_cut c (p s : string) :
  contains c p = false -> split1_head c (p ++ String c s) = p.
Proof.
  intros H. rewrite (split1_head_app_no_sep _ _ _ H). cbn [split1_head].
  rewrite Ascii.eqb_refl. apply sapp_nil_r.
Qed.

Lemma split1_head_id c (p : string) :
  contains c p = false -> split1_head c p = p.
Proof.
  intros H. rewrite <- (sapp_nil_r p) at 1.
  rewrite (split1_head_app_no_sep _ _ _ H). cbn [split1_head].
  apply sapp_nil_r.
Qed.

(** X6. A query string and a fragment do not change the file a request
    path is translated to. *)
Theorem query_and_fragment_are_ignored {L : TextLib} (d p rest : string) :
  contains "?" p = false ->
  contains "#" p = false ->
  translate_path d (p ++ "?" ++ rest) = translate_path d p
  /\ translate_path d (p ++ "#" ++ rest) = translate_path d p.
Proof.
  intros Hq Hf.
  assert (Hp : split1_head "#" (split1_head "?" p) = p).
  { rewrite (split1_head_id _ _ Hq). apply split1_head_id, Hf. }
  split; rewrite !translate_path_shape; cbv zeta; rewrite Hp.
  - change ("?" ++ rest)%string with (String "?" rest).
    rewrite (split1_head_cut _ _ _ Hq), (split1_head_id _ _ Hf). reflexivity.
  - change ("#" ++ rest)%string with (String "#" rest).
    rewrite (split1_head_app_no_sep _ _ _ Hq).
    change (split1_head "?" (String "#" rest))
      with (String "#" (split1_head "?" rest)).
    rewrite split1_head_cut by exact Hf.
    reflexivity.
Qed.

Lemma query_and_fragment_are_ignored_witness :
  translate_path base ("/index.html" ++ "?" ++ "v=3")
  = translate_path base "/index.html"
  /\ translate_path base ("/index.html" ++ "#" ++ "top?x")
     = translate_path base "/index.html".
Proof.
  split.
  - apply (proj1 (query_and_fragment_are_ignored (L := plain) base
                    "/index.html" "v=3" eq_refl eq_refl)).
  - apply (proj2 (query_and_fragment_are_ignored (L := plain) base
                    "/index.html" "top?x" eq_refl eq_refl)).
Defined.
